(** * LinkedIn jobs scraper: listing extractor, page fetcher, pagination
      driver and record exporter.

    A shallow embedding of [src/extractors/linkedin_parser.py] and
    [src/utils/data_exporter.py], with the properties of the specification
    stated and proved over it. *)

From Stdlib Require Import List Bool Arith ZArith Lia.
From Stdlib Require Import Strings.Ascii Strings.String.
From Stdlib Require Import Numbers.DecimalString Numbers.DecimalPos.
Import ListNotations.

Local Open Scope list_scope.
Local Open Scope string_scope.

#[local] Set Warnings "-register-all".

(** ** Python strings

    A Python [str] is modelled by the string of its bytes.  [py_strip] is
    [str.strip()] on the ASCII white space Python recognises; [py_join] is
    [sep.join(parts)]. *)

Module PyStr.

Definition is_space (c : ascii) : bool :=
  let n := nat_of_ascii c in
  (Nat.leb 9 n && Nat.leb n 13) || (Nat.leb 28 n && Nat.leb n 32).

Fixpoint lstrip (s : string) : string :=
  match s with
  | EmptyString => EmptyString
  | String c s' => if is_space c then lstrip s' else s
  end.

(** Drops trailing white space: a character is kept when something that is
    not white space follows it or when it is not white space itself. *)
Fixpoint rstrip (s : string) : string :=
  match s with
  | EmptyString => EmptyString
  | String c s' =>
      match rstrip s' with
      | EmptyString => if is_space c then EmptyString else String c EmptyString
      | r => String c r
      end
  end.

Definition py_strip (s : string) : string := rstrip (lstrip s).

Fixpoint py_join (sep : string) (parts : list string) : string :=
  match parts with
  | [] => ""
  | [p] => p
  | p :: rest => p ++ sep ++ py_join sep rest
  end.

(** Truth value of a [str]: the empty string is false. *)
Definition truthy (s : string) : bool :=
  match s with EmptyString => false | _ => true end.

(** [a or b] on strings. *)
Definition py_or (a b : string) : string := if truthy a then a else b.

Definition lower_char (c : ascii) : ascii :=
  let n := nat_of_ascii c in
  if Nat.leb 65 n && Nat.leb n 90 then ascii_of_nat (n + 32) else c.

Fixpoint lower (s : string) : string :=
  match s with
  | EmptyString => EmptyString
  | String c s' => String (lower_char c) (lower s')
  end.

Definition str_of_Z (z : Z) : string := NilEmpty.string_of_int (Z.to_int z).

End PyStr.
Import PyStr.

(** ** The document tree

    What [BeautifulSoup(html, "lxml")] builds, as far as the extractor looks
    at it: elements with a tag name, a class list and children, and text
    nodes (the [NavigableString]s that [get_text] collects). *)

Module Dom.

Inductive node : Type :=
| Text (s : string)
| Elem (tag : string) (classes : list string) (children : list node).

(** A selector of the shape the extractor uses: [tag] or [tag.class]. *)
Record selector : Type := Sel { sel_tag : string; sel_class : option string }.

Definition has_class (c : string) (classes : list string) : bool :=
  existsb (String.eqb c) classes.

Definition matches (s : selector) (n : node) : bool :=
  match n with
  | Text _ => false
  | Elem tag classes _ =>
      String.eqb (sel_tag s) tag &&
      match sel_class s with
      | None => true
      | Some c => has_class c classes
      end
  end.

(** The elements strictly below a node, in document order. *)
Fixpoint descendants (n : node) : list node :=
  match n with
  | Text _ => []
  | Elem _ _ children =>
      flat_map (fun c => match c with
                         | Text _ => []
                         | Elem _ _ _ => c :: descendants c
                         end) children
  end.

(** [el.select(selector)]: every matching element below [el], in document
    order. *)
Definition select (s : selector) (n : node) : list node :=
  filter (matches s) (descendants n).

(** [el.select_one(selector)]: the first match, or [None]. *)
Definition select_one (s : selector) (n : node) : option node :=
  match select s n with
  | [] => None
  | e :: _ => Some e
  end.

(** The strings below a node, in document order. *)
Fixpoint all_strings (n : node) : list string :=
  match n with
  | Text s => [s]
  | Elem _ _ children => flat_map all_strings children
  end.

(** [el.get_text(sep, strip=True)]: every string is stripped, the empty
    ones are skipped, the rest are joined with [sep]. *)
Definition get_text (sep : string) (n : node) : string :=
  py_join sep (filter truthy (map py_strip (all_strings n))).

End Dom.
Import Dom.

(** ** The listing extractor: [parse_listings] and [_parse_single_card] *)

Module Extractor.

(** The dataclass [JobPosting]. *)
Record JobPosting : Type := mkJobPosting {
  job_title : string;
  company_name : string;
  location : string;
  date_posted : string;
  job_description : string;
  seniority_level : string;
  employment_type : string;
  industries : list string
}.

Definition tag_class (t c : string) : selector := Sel t (Some c).
Definition tag_only (t : string) : selector := Sel t None.

(** The inner helper [safe_text] of [_parse_single_card]. *)
Definition safe_text (card : node) (s : selector) : string :=
  match select_one s card with
  | Some el => get_text "" el
  | None => ""
  end.

(** The selector chains, in the order the [or]-chains try them. *)
Definition title_selectors : list selector :=
  [ tag_class "a" "job-card-list__title";
    tag_class "a" "base-card__full-link";
    tag_class "h3" "base-search-card__title";
    tag_only "h3" ].

Definition company_selectors : list selector :=
  [ tag_class "a" "job-card-container__company-name";
    tag_class "a" "base-search-card__subtitle";
    tag_class "span" "job-card-container__primary-description" ].

Definition location_selectors : list selector :=
  [ tag_class "span" "job-card-container__metadata-item";
    tag_class "span" "job-search-card__location" ].

Definition date_selectors : list selector :=
  [ tag_only "time";
    tag_class "div" "job-card-container__listed-time";
    tag_class "div" "job-search-card__listdate" ].

Definition description_selector : selector :=
  tag_class "div" "job-card-list__insight".
Definition seniority_selector : selector :=
  tag_class "span" "job-card-container__metadata-item--seniority".
Definition employment_selector : selector :=
  tag_class "span" "job-card-container__metadata-item--employment-type".
Definition industry_list_selector : selector :=
  tag_class "ul" "job-card-container__industry-list".
Definition li_selector : selector := tag_only "li".

(** [safe_text(s1) or safe_text(s2) or ...]: the first non-empty text; the
    value of the last operand when all are empty. *)
Fixpoint first_text (card : node) (sels : list selector) : string :=
  match sels with
  | [] => ""
  | [s] => safe_text card s
  | s :: rest => py_or (safe_text card s) (first_text card rest)
  end.

Definition title_of (card : node) : string := first_text card title_selectors.

Definition description_of (card : node) : string :=
  match select_one description_selector card with
  | Some el => get_text " " el
  | None => ""
  end.

(** A [Tag] is always true, so the [if li] of the comprehension keeps every
    item. *)
Definition industries_of (card : node) : list string :=
  match select_one industry_list_selector card with
  | Some industries_el => map (get_text "") (select li_selector industries_el)
  | None => []
  end.

Definition _parse_single_card (card : node) : option JobPosting :=
  let title := title_of card in
  if negb (truthy title) then None
  else
    Some {| job_title := title;
            company_name := first_text card company_selectors;
            location := first_text card location_selectors;
            date_posted := first_text card date_selectors;
            job_description := description_of card;
            seniority_level := safe_text card seniority_selector;
            employment_type := safe_text card employment_selector;
            industries := industries_of card |}.

Definition primary_card_selector : selector :=
  tag_class "li" "jobs-search-results__list-item".
Definition legacy_card_selector : selector := tag_class "div" "base-card".

(** The cards [parse_listings] walks over: the primary selection, or the
    legacy one when the primary selection is empty. *)
Definition discover_cards (soup : node) : list node :=
  match select primary_card_selector soup with
  | [] => select legacy_card_selector soup
  | cards => cards
  end.

(** The loop [for card in cards: job = ...; if job: jobs.append(job)]. *)
Fixpoint collect_jobs (cards : list node) : list JobPosting :=
  match cards with
  | [] => []
  | card :: rest =>
      match _parse_single_card card with
      | Some job => job :: collect_jobs rest
      | None => collect_jobs rest
      end
  end.

Definition parse_document (soup : node) : list JobPosting :=
  collect_jobs (discover_cards soup).

Section WithParser.

(** [BeautifulSoup(html, "lxml")]: the HTML parser is a library; it
    builds a tree from any input string. *)
Variable BeautifulSoup : string -> node.

Definition parse_listings (html : string) : list JobPosting :=
  parse_document (BeautifulSoup html).

End WithParser.

End Extractor.
Import Extractor.

(** ** Python dictionaries

    A [dict] keeps its keys in insertion order; assigning to a key that is
    present replaces the value where the key stands. *)

Module PyDict.

Definition dict (V : Type) : Type := list (string * V).

Fixpoint dict_set {V} (k : string) (v : V) (d : dict V) : dict V :=
  match d with
  | [] => [(k, v)]
  | (k', v') :: rest =>
      if String.eqb k k' then (k, v) :: rest
      else (k', v') :: dict_set k v rest
  end.

Fixpoint dict_get {V} (k : string) (d : dict V) : option V :=
  match d with
  | [] => None
  | (k', v') :: rest => if String.eqb k k' then Some v' else dict_get k rest
  end.

Definition keys {V} (d : dict V) : list string := map fst d.

(** [dict(pairs)]: the pairs are inserted from left to right. *)
Definition dict_of_pairs {V} (pairs : list (string * V)) : dict V :=
  fold_left (fun d kv => dict_set (fst kv) (snd kv) d) pairs [].

End PyDict.
Import PyDict.

(** ** [urllib.parse] as [_append_start_param] uses it

    [parse_qsl] splits the query at [&] (the only separator of the current
    library) and each field at its first [=]. *)

Module Url.

(** [s.split(sep)] for a one-character separator. *)
Fixpoint split_on (sep : ascii) (s : string) : list string :=
  match s with
  | EmptyString => [EmptyString]
  | String c s' =>
      if Ascii.eqb c sep then EmptyString :: split_on sep s'
      else match split_on sep s' with
           | [] => [String c EmptyString]
           | p :: ps => String c p :: ps
           end
  end.

(** [s.split(sep, 1)]: [None] when [sep] does not occur, else the text
    before and after its first occurrence. *)
Fixpoint split_once (sep : ascii) (s : string) : option (string * string) :=
  match s with
  | EmptyString => None
  | String c s' =>
      if Ascii.eqb c sep then Some (EmptyString, s')
      else match split_once sep s' with
           | Some (a, b) => Some (String c a, b)
           | None => None
           end
  end.

(** The result of [urlparse].  Scheme, network location, path and
    parameters are kept together in [before_query]: the code replaces the
    query only, and [urlunparse] puts the rest back.  What the library
    normalises in that part (the case of the scheme, an empty parameter
    part, control characters) is left out. *)
Record ParseResult : Type := mkParseResult {
  before_query : string;
  query : string;
  fragment : string
}.

(** The fragment starts at the first [#]; in what precedes it, the query
    starts at the first [?]. *)
Definition urlparse (url : string) : ParseResult :=
  let (rest, frag) := match split_once "#" url with
                      | Some (a, b) => (a, b)
                      | None => (url, "")
                      end in
  let (head, q) := match split_once "?" rest with
                   | Some (a, b) => (a, b)
                   | None => (rest, "")
                   end in
  mkParseResult head q frag.

(** [parsed._replace(query=q)] *)
Definition replace_query (p : ParseResult) (q : string) : ParseResult :=
  mkParseResult (before_query p) q (fragment p).

(** An empty query or fragment is left out together with its delimiter. *)
Definition urlunparse (p : ParseResult) : string :=
  before_query p
  ++ (if truthy (query p) then "?" ++ query p else "")
  ++ (if truthy (fragment p) then "#" ++ fragment p else "").

(** The percent-coding functions of the library. *)
Class Quoting : Type := {
  unquote_plus : string -> string;
  quote_plus : string -> string
}.

Section WithQuoting.
Context {Q : Quoting}.

(** One [name=value] field of [parse_qsl] with its defaults
    ([keep_blank_values=False], [strict_parsing=False]): an empty field, a
    field without [=] and a field whose value is empty give nothing. *)
Definition parse_field (name_value : string) : option (string * string) :=
  if negb (truthy name_value) then None
  else match split_once "=" name_value with
       | None => None
       | Some (name, value) =>
           if truthy value
           then Some (unquote_plus name, unquote_plus value)
           else None
       end.

Fixpoint parse_fields (fields : list string) : list (string * string) :=
  match fields with
  | [] => []
  | f :: rest =>
      match parse_field f with
      | Some nv => nv :: parse_fields rest
      | None => parse_fields rest
      end
  end.

Definition parse_qsl (qs : string) : list (string * string) :=
  parse_fields (split_on "&" qs).

(** [urlencode(query)] on a [dict] of strings. *)
Definition urlencode (d : dict string) : string :=
  py_join "&"
    (map (fun kv => (quote_plus (fst kv) ++ "=" ++ quote_plus (snd kv))%string) d).

(** [LinkedInJobScraper._append_start_param] *)
Definition _append_start_param (base_url : string) (start : Z) : string :=
  let parsed := urlparse base_url in
  let query0 := dict_of_pairs (parse_qsl (query parsed)) in
  let query1 := dict_set "start" (str_of_Z start) query0 in
  let new_query := urlencode query1 in
  urlunparse (replace_query parsed new_query).

(** The dictionary whose encoding becomes the new query string. *)
Definition paged_query (base_url : string) (start : Z) : dict string :=
  dict_set "start" (str_of_Z start)
           (dict_of_pairs (parse_qsl (query (urlparse base_url)))).

End WithQuoting.

(** *** Percent-coding on bytes

    [quote_plus] keeps letters, digits and [_.-~], writes a space as [+]
    and any other byte as [%XX]; [unquote_plus] reads [+] as a space and
    [%XX] as the byte it names. *)

Definition hex_value (c : ascii) : option nat :=
  let n := nat_of_ascii c in
  if Nat.leb 48 n && Nat.leb n 57 then Some (n - 48)
  else if Nat.leb 65 n && Nat.leb n 70 then Some (n - 55)
  else if Nat.leb 97 n && Nat.leb n 102 then Some (n - 87)
  else None.

Definition hex_digit (n : nat) : ascii :=
  if Nat.ltb n 10 then ascii_of_nat (48 + n) else ascii_of_nat (55 + n).

Definition is_unreserved (c : ascii) : bool :=
  let n := nat_of_ascii c in
  (Nat.leb 48 n && Nat.leb n 57) || (Nat.leb 65 n && Nat.leb n 90)
  || (Nat.leb 97 n && Nat.leb n 122)
  || Nat.eqb n 95 || Nat.eqb n 46 || Nat.eqb n 45 || Nat.eqb n 126.

Definition quote_char (c : ascii) : string :=
  if is_unreserved c then String c EmptyString
  else if Ascii.eqb c " " then "+"
  else let n := nat_of_ascii c in
       String "%" (String (hex_digit (n / 16))
                  (String (hex_digit (n mod 16)) EmptyString)).

Fixpoint byte_quote_plus (s : string) : string :=
  match s with
  | EmptyString => EmptyString
  | String c s' => quote_char c ++ byte_quote_plus s'
  end.

Fixpoint byte_unquote (s : string) : string :=
  match s with
  | EmptyString => EmptyString
  | String c s1 =>
      if Ascii.eqb c "%" then
        match s1 with
        | String h1 (String h2 rest) =>
            match hex_value h1, hex_value h2 with
            | Some a, Some b => String (ascii_of_nat (16 * a + b)) (byte_unquote rest)
            | _, _ => String c (byte_unquote s1)
            end
        | _ => String c (byte_unquote s1)
        end
      else String c (byte_unquote s1)
  end.

Fixpoint plus_to_space (s : string) : string :=
  match s with
  | EmptyString => EmptyString
  | String c s' =>
      String (if Ascii.eqb c "+" then " "%char else c) (plus_to_space s')
  end.

Definition byte_unquote_plus (s : string) : string :=
  byte_unquote (plus_to_space s).

Definition ByteQuoting : Quoting :=
  {| unquote_plus := byte_unquote_plus; quote_plus := byte_quote_plus |}.

End Url.
Import Url.

(** ** Results of fallible calls *)

Inductive result (E A : Type) : Type :=
| Ok (a : A)
| Err (e : E).
Arguments Ok {E A} a.
Arguments Err {E A} e.

(** ** The page fetcher: [LinkedInJobScraper._fetch_page]

    The world is threaded through every call.  The proxy manager, the HTTP
    session, the logger and the clock belong to the environment. *)

Module Fetcher.

Section Fetch.

Variables World Exn Response Params : Type.

(** What a call can raise: something the environment raised, or the
    failure of the [assert] that closes [_fetch_page]. *)
Inductive raised : Type :=
| Raised (e : Exn)
| AssertionError.

Inductive log_record : Type :=
| LogFetching (attempt max_retries : Z) (url : string) (proxy : option string)
| LogFailed (attempt max_retries : Z) (url : string) (exc : Exn).

(** [proxy_manager.get_proxy()] when a manager is configured. *)
Variable proxy_manager : option (World -> result Exn (option string) * World).
Variable max_retries : Z.
Variable request_timeout : Z.

(** [session.get(url, params=, headers=, proxies=, timeout=)] *)
Variable session_get :
  string -> option Params -> option (string * string) -> Z ->
  World -> result Exn Response * World.
(** [resp.raise_for_status()]: the exception it raises, if any. *)
Variable raise_for_status : Response -> option Exn.
Variable resp_text : Response -> string.
Variable emit : log_record -> World -> World.
(** [time.sleep(random.uniform( *delay_range))] *)
Variable sleep_delay : World -> World.

(** [{"http": proxy, "https": proxy} if proxy else None] *)
Definition proxies_of (proxy : option string) : option (string * string) :=
  match proxy with
  | Some p => if truthy p then Some (p, p) else None
  | None => None
  end.

(** The body of the [try] block for one attempt. *)
Definition attempt_once (url : string) (params : option Params)
           (attempt : Z) (w : World) : result Exn string * World :=
  let got := match proxy_manager with
             | Some get_proxy => get_proxy w
             | None => (Ok None, w)
             end in
  match got with
  | (Err e, w1) => (Err e, w1)
  | (Ok proxy, w1) =>
      let w2 := emit (LogFetching attempt max_retries url proxy) w1 in
      match session_get url params (proxies_of proxy) request_timeout w2 with
      | (Err e, w3) => (Err e, w3)
      | (Ok resp, w3) =>
          match raise_for_status resp with
          | Some e => (Err e, w3)
          | None => (Ok (resp_text resp), w3)
          end
      end
  end.

(** The handler of the [except] clause: log a warning, then sleep. *)
Definition after_failure (url : string) (attempt : Z) (e : Exn)
           (w : World) : World :=
  sleep_delay (emit (LogFailed attempt max_retries url e) w).

(** The [for] loop with [remaining] iterations left, the next one
    numbered [attempt]; after the loop, [assert] and [raise last_exc]. *)
Fixpoint fetch_loop (url : string) (params : option Params)
         (remaining : nat) (attempt : Z) (last_exc : option Exn)
         (w : World) : result raised string * World :=
  match remaining with
  | O =>
      match last_exc with
      | Some e => (Err (Raised e), w)
      | None => (Err AssertionError, w)
      end
  | S remaining' =>
      match attempt_once url params attempt w with
      | (Ok text, w') => (Ok text, w')
      | (Err e, w') =>
          fetch_loop url params remaining' (attempt + 1) (Some e)
                     (after_failure url attempt e w')
      end
  end.

(** [range(1, max_retries + 1)] has [max_retries] elements, none when
    [max_retries] is not positive. *)
Definition _fetch_page (url : string) (params : option Params)
           (w : World) : result raised string * World :=
  fetch_loop url params (Z.to_nat max_retries) 1 None w.

(** [failing_run url params n k w e w']: from world [w], the attempts
    numbered [k], ..., [k + n - 1] all fail, the last of them with [e], and
    leave the world [w'] (after the handler of the last failure). *)
Inductive failing_run (url : string) (params : option Params) :
  nat -> Z -> World -> Exn -> World -> Prop :=
| failing_last : forall k w e w1,
    attempt_once url params k w = (Err e, w1) ->
    failing_run url params 1 k w e (after_failure url k e w1)
| failing_more : forall n k w e0 w1 e w',
    attempt_once url params k w = (Err e0, w1) ->
    failing_run url params (S n) (k + 1) (after_failure url k e0 w1) e w' ->
    failing_run url params (S (S n)) k w e w'.

(** [succeeding_run url params n k w text w']: from world [w], [n]
    attempts numbered from [k] fail and the next one returns [text] in
    world [w']. *)
Inductive succeeding_run (url : string) (params : option Params) :
  nat -> Z -> World -> string -> World -> Prop :=
| succeeding_now : forall k w text w',
    attempt_once url params k w = (Ok text, w') ->
    succeeding_run url params 0 k w text w'
| succeeding_later : forall n k w e0 w1 text w',
    attempt_once url params k w = (Err e0, w1) ->
    succeeding_run url params n (k + 1) (after_failure url k e0 w1) text w' ->
    succeeding_run url params (S n) k w text w'.

End Fetch.

Arguments Raised {Exn} e.
Arguments AssertionError {Exn}.

End Fetcher.

(** ** [JobPosting.to_dict]: the record as a dictionary *)

Inductive value : Type :=
| VStr (s : string)
| VList (items : list string).

Definition to_dict (job : JobPosting) : dict value :=
  [ ("job_title", VStr (job_title job));
    ("company_name", VStr (company_name job));
    ("location", VStr (location job));
    ("date_posted", VStr (date_posted job));
    ("job_description", VStr (job_description job));
    ("seniority_level", VStr (seniority_level job));
    ("employment_type", VStr (employment_type job));
    ("industries", VList (industries job)) ].

(** ** The pagination driver: [LinkedInJobScraper.scrape_search] *)

Module Driver.

Section Scrape.

Context {Q : Quoting}.
Variables World Raised : Type.

Inductive log_record : Type :=
| LogScraping (start : Z) (paged_url : string)
| LogNoFurther
| LogAccumulated (total page : nat).

(** [self._fetch_page(url)] and [self.parse_listings(html)] *)
Variable fetch_page : string -> World -> result Raised string * World.
Variable parse_listings : string -> list JobPosting.
Variable emit : log_record -> World -> World.
Variable sleep_delay : World -> World.

Variable max_jobs : Z.

Definition page_size_guess : Z := 25.

Definition len {A} (l : list A) : Z := Z.of_nat (List.length l).

(** The inner [for job in page_jobs] loop: append, then leave as soon as
    the cap is reached. *)
Fixpoint append_jobs (page_jobs : list JobPosting)
         (all_jobs : list (dict value)) : list (dict value) :=
  match page_jobs with
  | [] => all_jobs
  | job :: rest =>
      let all_jobs' := (all_jobs ++ [to_dict job])%list in
      if (len all_jobs' >=? max_jobs)%Z then all_jobs'
      else append_jobs rest all_jobs'
  end.

(** The [while] loop; [fuel] bounds the number of iterations, and [None]
    means that the bound was too small. *)
Fixpoint scrape_loop (fuel : nat) (search_url : string) (start : Z)
         (all_jobs : list (dict value)) (w : World)
  : option (result Raised (list (dict value)) * World) :=
  if (len all_jobs <? max_jobs)%Z then
    match fuel with
    | O => None
    | S fuel' =>
        let paged_url := _append_start_param search_url start in
        let w1 := emit (LogScraping start paged_url) w in
        match fetch_page paged_url w1 with
        | (Err e, w2) => Some (Err e, w2)
        | (Ok html, w2) =>
            let page_jobs := parse_listings html in
            match page_jobs with
            | [] => Some (Ok all_jobs, emit LogNoFurther w2)
            | _ :: _ =>
                let all_jobs' := append_jobs page_jobs all_jobs in
                let w3 := emit (LogAccumulated (List.length all_jobs')
                                               (List.length page_jobs)) w2 in
                scrape_loop fuel' search_url (start + page_size_guess)
                            all_jobs' (sleep_delay w3)
            end
        end
    end
  else Some (Ok all_jobs, w).

(** Every iteration that goes on adds a job, so [max_jobs] iterations are
    enough. *)
Definition scrape_search (search_url : string) (w : World)
  : option (result Raised (list (dict value)) * World) :=
  scrape_loop (Z.to_nat max_jobs) search_url 0 [] w.

End Scrape.

End Driver.

(** ** The scraper as a whole

    [scrape_search] with the fetcher and the extractor of the class in the
    place of [self._fetch_page] and [self.parse_listings]; the driver calls
    the fetcher without query parameters. *)

Module LinkedInJobScraper.

Section Scraper.

Context {Q : Quoting}.
Variables World Exn Response : Type.
Variable proxy_manager : option (World -> result Exn (option string) * World).
Variable max_retries : Z.
Variable request_timeout : Z.
Variable session_get :
  string -> option unit -> option (string * string) -> Z ->
  World -> result Exn Response * World.
Variable raise_for_status : Response -> option Exn.
Variable resp_text : Response -> string.
Variable emit_fetch : Fetcher.log_record Exn -> World -> World.
Variable emit_scrape : Driver.log_record -> World -> World.
Variable sleep_delay : World -> World.
Variable BeautifulSoup : string -> node.

Definition _fetch_page (url : string) (w : World)
  : result (Fetcher.raised Exn) string * World :=
  Fetcher._fetch_page World Exn Response unit proxy_manager max_retries
                      request_timeout session_get raise_for_status resp_text
                      emit_fetch sleep_delay url None w.

Definition scrape_search (search_url : string) (max_jobs : Z) (w : World)
  : option (result (Fetcher.raised Exn) (list (dict value)) * World) :=
  Driver.scrape_search World (Fetcher.raised Exn) _fetch_page
                       (parse_listings BeautifulSoup) emit_scrape sleep_delay
                       max_jobs search_url w.

End Scraper.

End LinkedInJobScraper.

(** ** A fetch stub that counts its calls

    The world is the number of calls made so far; call number [n] (from 0)
    for the URL [url] returns [pages n url].  Logging and sleeping leave
    the counter alone. *)

Module Stub.

Definition world : Type := nat.

Definition fetch (pages : nat -> string -> string) (url : string)
           (calls : world) : result unit string * world :=
  (Ok (pages calls url), S calls).

Definition silent {A} (_ : A) (w : world) : world := w.
Definition no_sleep (w : world) : world := w.

Definition scrape_search {Q : Quoting} (pages : nat -> string -> string)
           (extract : string -> list JobPosting) (max_jobs : Z)
           (search_url : string)
  : option (result unit (list (dict value)) * world) :=
  Driver.scrape_search world unit (fetch pages) extract silent no_sleep
                       max_jobs search_url 0.

End Stub.

(** ** The file system seen by the exporter

    Directories and files are recorded under their absolute path.
    [abspath] joins a relative path to the working directory (the
    normalisation of [.] and [..] segments is left out); [dirname] is the
    text before the last slash; [makedirs] creates the directory with the
    ancestors that are missing; [write_file] is [open(path, "w")] followed by
    the writes. *)

Module FileSystem.

Record FS : Type := mkFS {
  cwd : string;
  dirs : list string;
  files : dict string
}.

Definition is_absolute (p : string) : bool :=
  match p with
  | String c _ => Ascii.eqb c "/"
  | EmptyString => false
  end.

Definition abspath (fs : FS) (p : string) : string :=
  if is_absolute p then p else cwd fs ++ "/" ++ p.

(** [split_last_slash s] is [Some (head, tail)] when [s] is
    [head ++ "/" ++ tail] and [tail] has no slash. *)
Fixpoint split_last_slash (s : string) : option (string * string) :=
  match s with
  | EmptyString => None
  | String c s' =>
      match split_last_slash s' with
      | Some (h, t) => Some (String c h, t)
      | None => if Ascii.eqb c "/" then Some (EmptyString, s') else None
      end
  end.

Fixpoint rstrip_slash (s : string) : string :=
  match s with
  | EmptyString => EmptyString
  | String c s' =>
      match rstrip_slash s' with
      | EmptyString => if Ascii.eqb c "/" then EmptyString else String c EmptyString
      | r => String c r
      end
  end.

(** [os.path.dirname]: the head up to and including the last slash, with
    its trailing slashes removed unless it consists of slashes only. *)
Definition dirname (p : string) : string :=
  match split_last_slash p with
  | None => ""
  | Some (h, _) =>
      let head := h ++ "/" in
      match rstrip_slash head with
      | EmptyString => head
      | stripped => stripped
      end
  end.

Definition mem (p : string) (l : list string) : bool := existsb (String.eqb p) l.

Definition path_exists (p : string) (fs : FS) : bool :=
  mem p (dirs fs) || mem p (keys (files fs)).

(** The directory prefixes of a path, shortest first. *)
Fixpoint dir_prefixes (seen rest : string) : list string :=
  match rest with
  | EmptyString => if truthy seen then [seen] else []
  | String c rest' =>
      if Ascii.eqb c "/"
      then ((if truthy seen then [seen] else [])
              ++ dir_prefixes (seen ++ "/") rest')%list
      else dir_prefixes (seen ++ String c EmptyString) rest'
  end.

Fixpoint add_missing (ps : list string) (ds : list string) : list string :=
  match ps with
  | [] => ds
  | p :: ps' => add_missing ps' (if mem p ds then ds else (ds ++ [p])%list)
  end.

Definition makedirs (p : string) (fs : FS) : FS :=
  mkFS (cwd fs) (add_missing (dir_prefixes "" p) (dirs fs)) (files fs).

Definition write_file (p content : string) (fs : FS) : FS :=
  mkFS (cwd fs) (dirs fs) (dict_set (abspath fs p) content (files fs)).

End FileSystem.
Import FileSystem.

(** ** The record exporter: [DataExporter] *)

Module DataExporter.

Inductive exn : Type :=
| ValueError (msg : string).

(** The tree [_export_xml] builds before it is written. *)
Inductive xml : Type :=
| XElement (tag : string) (text : string) (children : list xml).

Definition xml_field (kv : string * value) : xml :=
  match snd kv with
  | VList items => XElement (fst kv) (py_join ", " items) []
  | VStr s => XElement (fst kv) s []
  end.

Definition xml_tree (records : list (dict value)) : xml :=
  XElement "jobs" ""
           (map (fun rec => XElement "job" "" (map xml_field rec)) records).

Section Exporting.

(** The serialisers of [json], [pandas] and [ElementTree]. *)
Variable json_dump : list (dict value) -> string.
Variable to_csv : list (dict value) -> string.
Variable to_excel : list (dict value) -> string.
Variable to_html : list (dict value) -> string.
Variable xml_write : xml -> string.

Definition _ensure_parent_dir (path : string) (fs : FS) : FS :=
  let parent := dirname (abspath fs path) in
  if truthy parent && negb (path_exists parent fs)
  then makedirs parent fs
  else fs.

Definition _export_json (records : list (dict value)) (path : string)
           (fs : FS) : FS :=
  write_file path (json_dump records) fs.

Definition _export_csv (records : list (dict value)) (path : string)
           (fs : FS) : FS :=
  write_file path (to_csv records) fs.

Definition _export_excel (records : list (dict value)) (path : string)
           (fs : FS) : FS :=
  write_file path (to_excel records) fs.

Definition _export_xml (records : list (dict value)) (path : string)
           (fs : FS) : FS :=
  write_file path (xml_write (xml_tree records)) fs.

Definition html_head : string :=
  "<!DOCTYPE html>" ++ String (ascii_of_nat 10)
  "<html><head><meta charset='utf-8'><title>LinkedIn Jobs</title></head><body>".

Definition _export_html (records : list (dict value)) (path : string)
           (fs : FS) : FS :=
  write_file path (html_head ++ to_html records ++ "</body></html>") fs.

Definition export (data : list (dict value)) (fmt path : string) (fs : FS)
  : result exn unit * FS :=
  let fmt := lower fmt in
  let records := data in
  match records with
  | [] => (Err (ValueError "No records to export."), fs)
  | _ :: _ =>
      let fs1 := _ensure_parent_dir path fs in
      if String.eqb fmt "json" then (Ok tt, _export_json records path fs1)
      else if String.eqb fmt "csv" then (Ok tt, _export_csv records path fs1)
      else if String.eqb fmt "excel" then (Ok tt, _export_excel records path fs1)
      else if String.eqb fmt "xml" then (Ok tt, _export_xml records path fs1)
      else if String.eqb fmt "html" then (Ok tt, _export_html records path fs1)
      else (Err (ValueError ("Unsupported export format: " ++ fmt)), fs1)
  end.

End Exporting.

(** The formats the exporter names. *)
Definition formats : list string := ["json"; "csv"; "excel"; "xml"; "html"].

End DataExporter.


(** ** Notions the properties are stated with *)

(** No selector of the chain matches anything in the card. *)
Definition none_present (card : node) (sels : list selector) : Prop :=
  forall s, In s sels -> select_one s card = None.

(** A card is title-less when each of the four title selectors, tried in
    order, yields no non-empty text. *)
Definition title_less (card : node) : bool :=
  forallb (fun s => negb (truthy (safe_text card s))) title_selectors.

(** The record built for a card that has a title. *)
Definition posting_of (card : node) : JobPosting :=
  {| job_title := title_of card;
     company_name := first_text card company_selectors;
     location := first_text card location_selectors;
     date_posted := first_text card date_selectors;
     job_description := description_of card;
     seniority_level := safe_text card seniority_selector;
     employment_type := safe_text card employment_selector;
     industries := industries_of card |}.

(** The industries as the specification words them: the texts of the list
    items that are children of the industry-list container. *)
Definition children_of (n : node) : list node :=
  match n with
  | Text _ => []
  | Elem _ _ children => children
  end.

Definition industries_of_direct_items (card : node) : list string :=
  match select_one industry_list_selector card with
  | Some container =>
      map (get_text "") (filter (matches li_selector) (children_of container))
  | None => []
  end.

(** A list none of whose children contains a list item further down. *)
Definition flat_list (container : node) : Prop :=
  forall child, In child (children_of container) ->
                select li_selector child = [].

(** ** Sample documents *)

Module Samples.

Definition nl : string := String (ascii_of_nat 10) "".

(** The card of the fixture [SAMPLE_HTML] of [tests/test_extraction.py]. *)
Definition sample_card : node :=
  Elem "li" ["jobs-search-results__list-item"]
    [ Text (nl ++ "        ");
      Elem "div" ["base-card"]
        [ Text (nl ++ "          ");
          Elem "h3" ["base-search-card__title"] [Text "Software Engineer"];
          Text (nl ++ "          ");
          Elem "a" ["job-card-container__company-name"] [Text "Techify Inc."];
          Text (nl ++ "          ");
          Elem "span" ["job-search-card__location"] [Text "New York, NY"];
          Text (nl ++ "          ");
          Elem "time" [] [Text "3 days ago"];
          Text (nl ++ "          ");
          Elem "div" ["job-card-list__insight"]
            [Text (nl ++ "            Develop and maintain backend APIs using Python and Node.js."
                      ++ nl ++ "          ")];
          Text (nl ++ "          ");
          Elem "span" ["job-card-container__metadata-item--seniority"] [Text "Mid-Level"];
          Text (nl ++ "          ");
          Elem "span" ["job-card-container__metadata-item--employment-type"] [Text "Full-Time"];
          Text (nl ++ "          ");
          Elem "ul" ["job-card-container__industry-list"]
            [ Text (nl ++ "            ");
              Elem "li" [] [Text "Software Development"];
              Text (nl ++ "            ");
              Elem "li" [] [Text "Information Technology"];
              Text (nl ++ "          ") ];
          Text (nl ++ "        ") ];
      Text (nl ++ "      ") ].

(** A result item without any title element, such as an advertisement. *)
Definition ad_card : node :=
  Elem "li" ["jobs-search-results__list-item"]
    [ Elem "span" ["job-search-card__location"] [Text "Sponsored"] ].

Definition document (body : list node) : node :=
  Elem "[document]" [] [ Elem "html" [] [ Elem "body" [] body ] ].

Definition sample_soup : node :=
  document [ Elem "ul" ["jobs-search__results-list"] [sample_card] ].

Definition soup_with_ad : node :=
  document [ Elem "ul" ["jobs-search__results-list"] [ad_card; sample_card] ].

(** A page in the legacy markup only. *)
Definition legacy_soup : node :=
  document [ Elem "div" ["base-card"]
               [ Elem "a" ["base-card__full-link"] [Text " Data Analyst "] ] ].

(** A page without any result item. *)
Definition empty_soup : node :=
  document [ Elem "p" [] [Text "No matching jobs found."] ].

(** A card whose industry list has an item that holds a list of its own. *)
Definition nested_industries_card : node :=
  Elem "li" ["jobs-search-results__list-item"]
    [ Elem "h3" [] [Text "Engineer"];
      Elem "ul" ["job-card-container__industry-list"]
        [ Elem "li" [] [ Text "Software";
                         Elem "ul" [] [ Elem "li" [] [Text "Games"] ] ];
          Elem "li" [] [Text "Finance"] ] ].

End Samples.

(** ** Query strings, as the properties read them *)

(** The value of the last pair of [pairs] whose key is [k]. *)
Fixpoint last_value {V} (k : string) (pairs : list (string * V)) : option V :=
  match pairs with
  | [] => None
  | (k', v) :: rest =>
      match last_value k rest with
      | Some v' => Some v'
      | None => if String.eqb k k' then Some v else None
      end
  end.

(** Inserting pairs from left to right, on top of a dictionary. *)
Definition insert_all {V} (pairs : list (string * V)) (d : dict V) : dict V :=
  fold_left (fun d kv => dict_set (fst kv) (snd kv) d) pairs d.

(** The keys of a list in the order of their first occurrence. *)
Definition first_occurrences (ks : list string) : list string :=
  fold_left (fun seen k => if mem k seen then seen else (seen ++ [k])%list) ks [].

(** The [name=value] fields of a query string as they are written, without
    decoding: every non-empty field is listed, with an empty value when it
    has no [=]. *)
Definition split_field (f : string) : string * string :=
  match split_once "=" f with
  | Some nv => nv
  | None => (f, "")
  end.

Definition raw_fields (qs : string) : list (string * string) :=
  map split_field (filter truthy (split_on "&" qs)).

Fixpoint has_char (c : ascii) (s : string) : bool :=
  match s with
  | EmptyString => false
  | String c' s' => Ascii.eqb c' c || has_char c s'
  end.

(** What the percent-coding functions guarantee: decoding undoes encoding,
    the delimiters of a URL do not survive encoding, and a non-empty string
    stays non-empty both ways. *)
Class QuotingLaws (Q : Quoting) : Prop := {
  unquote_quote : forall s, unquote_plus (quote_plus s) = s;
  quote_no_amp : forall s, has_char "&" (quote_plus s) = false;
  quote_no_eq : forall s, has_char "=" (quote_plus s) = false;
  quote_no_hash : forall s, has_char "#" (quote_plus s) = false;
  quote_nonempty : forall s, s <> "" -> quote_plus s <> "";
  unquote_nonempty : forall s, s <> "" -> unquote_plus s <> ""
}.

Section Decoding.
Context {Q : Quoting}.

(** A written field, decoded. *)
Definition decode_pair (kv : string * string) : string * string :=
  (unquote_plus (fst kv), unquote_plus (snd kv)).

(** A written field whose value is not empty. *)
Definition nonblank (kv : string * string) : bool := truthy (snd kv).

(** The fields [parse_qsl] keeps, by what is written in the query. *)
Definition kept_fields (qs : string) : list (string * string) :=
  map decode_pair (filter nonblank (raw_fields qs)).
End Decoding.

(** The URL functions with the percent-coding on bytes. *)
Definition byte_append_start_param : string -> Z -> string :=
  @_append_start_param ByteQuoting.
Definition byte_parse_qsl : string -> list (string * string) :=
  @parse_qsl ByteQuoting.

(** The query parameters of a URL as they are written in it. *)
Definition written_params (url : string) : list (string * string) :=
  raw_fields (query (urlparse url)).

(** ** A sample environment for the fetcher

    The world counts the GET requests issued so far; request number [n]
    (from 1) fails with the exception [n] while [n] is below
    [first_success], and is answered with status 200 from then on. *)

Module FetchSamples.

Definition world : Type := nat.

Record response : Type := mkResponse { status : Z; body : string }.

Definition session_get (first_success : nat) (url : string)
           (params : option unit) (proxies : option (string * string))
           (timeout : Z) (w : world) : result nat response * world :=
  let n := S w in
  if Nat.ltb n first_success then (Err n, n)
  else (Ok (mkResponse 200 ("<html>" ++ url ++ "</html>")), n).

(** [raise_for_status] raises for the statuses from 400 to 599; the
    exception is numbered 0 here. *)
Definition raise_for_status (r : response) : option nat :=
  if ((400 <=? status r) && (status r <? 600))%Z then Some 0%nat else None.

Definition fetch_page (max_retries : Z) (first_success : nat)
           (url : string) (w : world)
  : result (Fetcher.raised nat) string * world :=
  Fetcher._fetch_page world nat response unit None max_retries 20
                      (session_get first_success) raise_for_status body
                      (fun _ w => w) (fun w => w) url None w.

End FetchSamples.

(** ** Sample stubs for the driver *)

Module StubSamples.

Definition numbered_job (n : nat) : JobPosting :=
  {| job_title := "Job " ++ str_of_Z (Z.of_nat n);
     company_name := "Techify Inc.";
     location := "";
     date_posted := "";
     job_description := "";
     seniority_level := "";
     employment_type := "";
     industries := [] |}.

(** Every page extracts to the same 25 records. *)
Definition full_page : list JobPosting := map numbered_job (seq 0 25).
Definition always_full (html : string) : list JobPosting := full_page.
Definition any_page (n : nat) (url : string) : string := "<html></html>".

(** The page at offset 0 extracts to three records, every other page to
    none. *)
Definition two_pages (n : nat) (url : string) : string :=
  if String.eqb url "https://x.test/search?keywords=dev&start=0"
  then "first" else "later".
Definition three_then_none (html : string) : list JobPosting :=
  if String.eqb html "first" then map numbered_job (seq 0 3) else [].

Definition search_url : string := "https://x.test/search?keywords=dev".

Definition scrape (pages : nat -> string -> string)
           (extract : string -> list JobPosting) (max_jobs : Z)
  : option (result unit (list (dict value)) * Stub.world) :=
  @Stub.scrape_search ByteQuoting pages extract max_jobs search_url.

End StubSamples.

(** ** A sample file system and sample records for the exporter *)

Module ExportSamples.

(** Only the root and the working directory exist. *)
Definition fs0 : FS := mkFS "/work" ["/"; "/work"] [].

Definition one_record : list (dict value) :=
  [ [ ("job_title", VStr "Software Engineer");
      ("industries", VList ["Software Development"; "Information Technology"]) ] ].

Definition blank (_ : list (dict value)) : string := "".
Definition blank_xml (_ : DataExporter.xml) : string := "".

Definition export (data : list (dict value)) (fmt path : string) (fs : FS)
  : result DataExporter.exn unit * FS :=
  DataExporter.export blank blank blank blank blank_xml data fmt path fs.

End ExportSamples.

(** ** Further notions *)

(** A card that has a title. *)
Definition has_title (card : node) : bool := negb (title_less card).

(** A string that does not begin with white space. *)
Definition starts_clean (s : string) : bool :=
  match s with
  | EmptyString => true
  | String c _ => negb (is_space c)
  end.

(** A string that [str.strip()] leaves as it is. *)
Definition stripped (s : string) : Prop := py_strip s = s.

(** The field names of [JobPosting], in the order of the dataclass. *)
Definition field_names : list string :=
  [ "job_title"; "company_name"; "location"; "date_posted";
    "job_description"; "seniority_level"; "employment_type"; "industries" ].

(** ** A fetcher that records what the driver does

    The world keeps the URLs fetched, in order, and the number of sleeps.
    What a URL returns is given by [serve]; a fetch may fail. *)

Module Recorder.

Record world : Type := mkWorld {
  fetched : list string;
  sleeps : nat
}.

Definition start_world : world := mkWorld [] 0.

Definition fetch {E} (serve : string -> result E string) (url : string)
           (w : world) : result E string * world :=
  (serve url, mkWorld (fetched w ++ [url])%list (sleeps w)).

Definition sleep (w : world) : world := mkWorld (fetched w) (S (sleeps w)).

Definition quiet (_ : Driver.log_record) (w : world) : world := w.

Definition scrape_search {Q : Quoting} {E} (serve : string -> result E string)
           (extract : string -> list JobPosting) (max_jobs : Z)
           (search_url : string)
  : option (result E (list (dict value)) * world) :=
  Driver.scrape_search world E (fetch serve) extract quiet sleep
                       max_jobs search_url start_world.

Section Pages.
Context {Q : Quoting} {E : Type}.
Variable serve : string -> result E string.
Variable extract : string -> list JobPosting.
Variable search_url : string.

(** The URL of page number [i] (from 0): the offset is [25 * i]. *)
Definition url_at (i : nat) : string :=
  _append_start_param search_url (25 * Z.of_nat i).

(** The records of page number [i]; none when the fetch fails. *)
Definition page_at (i : nat) : list (dict value) :=
  match serve (url_at i) with
  | Ok html => map to_dict (extract html)
  | Err _ => []
  end.

Definition nonempty {A} (l : list A) : bool :=
  match l with [] => false | _ :: _ => true end.

(** The number of pages among the first [k] that hold a record. *)
Definition productive_pages (k : nat) : nat :=
  List.length (filter nonempty (map page_at (seq 0 k))).

End Pages.

End Recorder.

(** Sample servers for the recording fetcher. *)

Module RecorderSamples.

(** Three records at offset 0, nothing further on. *)
Definition serve_two_pages (url : string) : result nat string :=
  Ok (StubSamples.two_pages 0 url).

(** Three records at offset 0, then the server fails with 503. *)
Definition serve_then_fail (url : string) : result nat string :=
  if String.eqb url "https://x.test/search?keywords=dev&start=0"
  then Ok "first" else Err 503%nat.

Definition scrape (serve : string -> result nat string) (max_jobs : Z)
  : option (result nat (list (dict value)) * Recorder.world) :=
  @Recorder.scrape_search ByteQuoting nat serve StubSamples.three_then_none
                          max_jobs StubSamples.search_url.

End RecorderSamples.

(** ** A scripted environment for the fetcher

    What the proxy manager and the session answer is given per attempt
    (numbered from 0).  The world counts the attempts started, and records
    the requests sent (URL and proxies), the sleeps and the attempt numbers
    of the warnings logged. *)

Module Script.

Record world : Type := mkWorld {
  started : nat;
  requests : list (string * option (string * string));
  sleeps : nat;
  warnings : list Z
}.

Definition start_world : world := mkWorld 0 [] 0 [].

Section Scripted.

Variables E Response : Type.
Variable proxy_at : nat -> result E (option string).
Variable response_at : nat -> result E Response.
Variable raise_for_status : Response -> option E.
Variable resp_text : Response -> string.
Variable max_retries : Z.
Variable request_timeout : Z.

Definition get_proxy (w : world) : result E (option string) * world :=
  (proxy_at (started w),
   mkWorld (S (started w)) (requests w) (sleeps w) (warnings w)).

Definition session_get (url : string) (params : option unit)
           (proxies : option (string * string)) (timeout : Z) (w : world)
  : result E Response * world :=
  (response_at (pred (started w)),
   mkWorld (started w) (requests w ++ [(url, proxies)])%list (sleeps w)
           (warnings w)).

Definition emit (rec : Fetcher.log_record E) (w : world) : world :=
  match rec with
  | Fetcher.LogFailed _ attempt _ _ _ =>
      mkWorld (started w) (requests w) (sleeps w) (warnings w ++ [attempt])%list
  | Fetcher.LogFetching _ _ _ _ _ => w
  end.

Definition sleep (w : world) : world :=
  mkWorld (started w) (requests w) (S (sleeps w)) (warnings w).

Definition fetch_page (url : string)
  : result (Fetcher.raised E) string * world :=
  Fetcher._fetch_page world E Response unit (Some get_proxy) max_retries
                      request_timeout session_get raise_for_status resp_text
                      emit sleep url None start_world.

(** What attempt number [i] comes to. *)
Definition outcome_at (i : nat) : result E string :=
  match proxy_at i with
  | Err e => Err e
  | Ok _ =>
      match response_at i with
      | Err e => Err e
      | Ok resp =>
          match raise_for_status resp with
          | Some e => Err e
          | None => Ok (resp_text resp)
          end
      end
  end.

(** The request attempt number [i] sends, if it sends one. *)
Definition request_at (url : string) (i : nat)
  : list (string * option (string * string)) :=
  match proxy_at i with
  | Ok proxy => [(url, Fetcher.proxies_of proxy)]
  | Err _ => []
  end.

End Scripted.

End Script.

(** A sample script: the proxy manager rotates two proxies and fails on
    its second call; the first request times out, the third is answered. *)

Module ScriptSamples.

Definition proxy_at (i : nat) : result string (option string) :=
  match i with
  | 1 => Err "no proxy left"
  | _ => Ok (Some (if Nat.even i then "http://proxy-a:8080" else "http://proxy-b:8080"))
  end.

Definition response_at (i : nat) : result string (Z * string) :=
  match i with
  | 0 => Err "timeout"
  | _ => Ok (200%Z, "<html>jobs</html>")
  end.

Definition raise_for_status (r : Z * string) : option string :=
  if ((400 <=? fst r) && (fst r <? 600))%Z then Some "HTTPError" else None.

Definition fetch_page (max_retries : Z) (url : string)
  : result (Fetcher.raised string) string * Script.world :=
  Script.fetch_page string (Z * string) proxy_at response_at raise_for_status
                    snd max_retries 20 url.

End ScriptSamples.

(** ** What the exporter writes for a format *)

Section Rendering.

Variable json_dump : list (dict value) -> string.
Variable to_csv : list (dict value) -> string.
Variable to_excel : list (dict value) -> string.
Variable to_html : list (dict value) -> string.
Variable xml_write : DataExporter.xml -> string.

(** The text of the destination file for a format name in lower case. *)
Definition rendered (fmt : string) (records : list (dict value)) : string :=
  if String.eqb fmt "json" then json_dump records
  else if String.eqb fmt "csv" then to_csv records
  else if String.eqb fmt "excel" then to_excel records
  else if String.eqb fmt "xml" then xml_write (DataExporter.xml_tree records)
  else DataExporter.html_head ++ to_html records ++ "</body></html>".

End Rendering.

(** * Properties *)

(** ** Strings and selector chains *)

Lemma truthy_false_iff (s : string) : truthy s = false <-> s = "".
Proof.
  destruct s; simpl; split; intro H; congruence.
Qed.

Lemma truthy_true_iff (s : string) : truthy s = true <-> s <> "".
Proof.
  destruct s; simpl; split; intro H; congruence.
Qed.

Lemma py_or_truthy (a b : string) :
  truthy (py_or a b) = truthy a || truthy b.
Proof.
  unfold py_or. destruct (truthy a) eqn:Ha; simpl; auto.
Qed.

(** An [or]-chain is non-empty exactly when one of its operands is. *)
Lemma first_text_truthy (card : node) (sels : list selector) :
  truthy (first_text card sels)
  = existsb (fun s => truthy (safe_text card s)) sels.
Proof.
  induction sels as [|s rest IH]; [reflexivity|].
  destruct rest as [|s' rest'].
  - simpl. now rewrite orb_false_r.
  - change (first_text card (s :: s' :: rest'))
      with (py_or (safe_text card s) (first_text card (s' :: rest'))).
    rewrite py_or_truthy, IH. reflexivity.
Qed.

(** A selector that matches nothing gives the empty text. *)
Lemma safe_text_absent (card : node) (s : selector) :
  select_one s card = None -> safe_text card s = "".
Proof.
  unfold safe_text. now intros ->.
Qed.


Lemma first_text_absent (card : node) (sels : list selector) :
  none_present card sels -> first_text card sels = "".
Proof.
  intros H. apply truthy_false_iff. rewrite first_text_truthy.
  apply not_true_is_false. intros Hex.
  apply existsb_exists in Hex. destruct Hex as (s & Hin & Ht).
  rewrite (safe_text_absent _ _ (H s Hin)) in Ht. discriminate.
Qed.

(** ** The listing extractor *)


Lemma title_less_spec (card : node) :
  title_less card = negb (truthy (title_of card)).
Proof.
  unfold title_less, title_of. rewrite first_text_truthy.
  induction title_selectors as [|s rest IH]; simpl; [reflexivity|].
  rewrite IH, negb_orb. reflexivity.
Qed.

Lemma parse_single_card_none (card : node) :
  title_less card = true -> _parse_single_card card = None.
Proof.
  rewrite title_less_spec. unfold _parse_single_card. now intros ->.
Qed.

Lemma parse_single_card_some (card : node) :
  title_less card = false ->
  exists job, _parse_single_card card = Some job /\ job_title job = title_of card.
Proof.
  rewrite title_less_spec. unfold _parse_single_card. intros ->.
  eexists; split; reflexivity.
Qed.

Lemma parse_single_card_title (card : node) (job : JobPosting) :
  _parse_single_card card = Some job -> job_title job <> "".
Proof.
  unfold _parse_single_card.
  destruct (truthy (title_of card)) eqn:Ht; simpl; [|discriminate].
  intros [= <-]. simpl. now apply truthy_true_iff.
Qed.

Lemma collect_jobs_In (cards : list node) (job : JobPosting) :
  In job (collect_jobs cards) ->
  exists card, In card cards /\ _parse_single_card card = Some job.
Proof.
  induction cards as [|card rest IH]; simpl; [tauto|].
  destruct (_parse_single_card card) as [j|] eqn:Hc.
  - intros [<-|Hin].
    + exists card. auto.
    + destruct (IH Hin) as (c & ? & ?). exists c. auto.
  - intros Hin. destruct (IH Hin) as (c & ? & ?). exists c. auto.
Qed.

Lemma collect_jobs_length (cards : list node) :
  (List.length (collect_jobs cards)
   + List.length (filter title_less cards) = List.length cards)%nat.
Proof.
  induction cards as [|card rest IH]; simpl; [reflexivity|].
  destruct (title_less card) eqn:Ht.
  - rewrite (parse_single_card_none _ Ht). simpl. lia.
  - destruct (parse_single_card_some _ Ht) as (job & -> & _). simpl. lia.
Qed.


Lemma parse_single_card_fields (card : node) (job : JobPosting) :
  _parse_single_card card = Some job -> job = posting_of card.
Proof.
  unfold _parse_single_card, posting_of.
  destruct (truthy (title_of card)); cbn [negb]; congruence.
Qed.

(** The fields other than the title, for a card whose selectors are all
    absent. *)
Lemma parse_single_card_degrades (card : node) (job : JobPosting) :
  _parse_single_card card = Some job ->
  (none_present card company_selectors -> company_name job = "") /\
  (none_present card location_selectors -> location job = "") /\
  (none_present card date_selectors -> date_posted job = "") /\
  (select_one description_selector card = None -> job_description job = "") /\
  (select_one seniority_selector card = None -> seniority_level job = "") /\
  (select_one employment_selector card = None -> employment_type job = "") /\
  (select_one industry_list_selector card = None -> industries job = []).
Proof.
  intros Hj. rewrite (parse_single_card_fields _ _ Hj).
  unfold posting_of.
  cbn [company_name location date_posted job_description seniority_level
       employment_type industries].
  repeat split; intros H.
  - now apply first_text_absent.
  - now apply first_text_absent.
  - now apply first_text_absent.
  - unfold description_of. now rewrite H.
  - now apply safe_text_absent.
  - now apply safe_text_absent.
  - unfold industries_of. now rewrite H.
Qed.

(** C5.  Every record [parse_listings] returns has a non-empty title; a card
    whose four title selectors all yield no non-empty text gives no record,
    so the number of records is the number of cards minus the number of
    title-less cards; a card with a title always gives a record, in which
    every other field whose selectors match nothing is the empty string
    (the empty list for the industries). *)
Theorem parse_listings_title_filter (BeautifulSoup : string -> node) (html : string) :
  (forall job, In job (parse_listings BeautifulSoup html) -> job_title job <> "")
  /\ List.length (parse_listings BeautifulSoup html)
     = (List.length (discover_cards (BeautifulSoup html))
        - List.length (filter title_less (discover_cards (BeautifulSoup html))))%nat
  /\ (forall card, title_less card = true -> _parse_single_card card = None)
  /\ (forall card, title_less card = false ->
        exists job,
          _parse_single_card card = Some job
          /\ (none_present card company_selectors -> company_name job = "")
          /\ (none_present card location_selectors -> location job = "")
          /\ (none_present card date_selectors -> date_posted job = "")
          /\ (select_one description_selector card = None -> job_description job = "")
          /\ (select_one seniority_selector card = None -> seniority_level job = "")
          /\ (select_one employment_selector card = None -> employment_type job = "")
          /\ (select_one industry_list_selector card = None -> industries job = [])).
Proof.
  unfold parse_listings, parse_document.
  set (cards := discover_cards (BeautifulSoup html)).
  split; [|split; [|split]].
  - intros job Hin.
    destruct (collect_jobs_In _ _ Hin) as (card & _ & Hc).
    exact (parse_single_card_title _ _ Hc).
  - pose proof (collect_jobs_length cards). lia.
  - exact parse_single_card_none.
  - intros card Ht.
    destruct (parse_single_card_some _ Ht) as (job & Hj & _).
    exists job. split; [exact Hj|].
    exact (parse_single_card_degrades _ _ Hj).
Qed.

(** On a page holding an advertisement and the fixture card, one record
    comes out of two cards. *)
Lemma parse_listings_title_filter_witness :
  List.length (parse_listings (fun _ => Samples.soup_with_ad) "") = 1%nat
  /\ _parse_single_card Samples.ad_card = None.
Proof.
  destruct (parse_listings_title_filter (fun _ => Samples.soup_with_ad) "")
    as (_ & Hlen & Hnone & _).
  split.
  - rewrite Hlen. reflexivity.
  - apply Hnone. reflexivity.
Defined.

(** The fixture of [tests/test_extraction.py] gives the record the test
    expects. *)
Example fixture_parses :
  parse_document Samples.sample_soup
  = [ {| job_title := "Software Engineer";
         company_name := "Techify Inc.";
         location := "New York, NY";
         date_posted := "3 days ago";
         job_description := "Develop and maintain backend APIs using Python and Node.js.";
         seniority_level := "Mid-Level";
         employment_type := "Full-Time";
         industries := ["Software Development"; "Information Technology"] |} ].
Proof. reflexivity. Qed.

(** In a flat list the list items below the container are its children. *)
Lemma select_li_flat (container : node) :
  flat_list container ->
  select li_selector container
  = filter (matches li_selector) (children_of container).
Proof.
  unfold flat_list, select.
  destruct container as [s|tag classes children]; [reflexivity|].
  cbn [children_of descendants].
  induction children as [|c rest IH]; intros Hflat; [reflexivity|].
  cbn [flat_map filter].
  rewrite filter_app, IH by (intros child Hin; apply Hflat; now right).
  assert (Hc : filter (matches li_selector) (descendants c) = [])
    by (apply (Hflat c); now left).
  destruct c as [s|t cl ch].
  - reflexivity.
  - cbn [filter]. rewrite Hc.
    destruct (matches li_selector (Elem t cl ch)); reflexivity.
Qed.






(** C9.  The cards are the matches of the primary selector whenever there
    is one, whatever the legacy selector matches; the matches of the legacy
    selector are used only when the primary selector matches nothing. *)
Theorem card_discovery_first_selector_wins
        (BeautifulSoup : string -> node) (html : string) :
  (select primary_card_selector (BeautifulSoup html) <> [] ->
   discover_cards (BeautifulSoup html)
   = select primary_card_selector (BeautifulSoup html)
   /\ parse_listings BeautifulSoup html
      = collect_jobs (select primary_card_selector (BeautifulSoup html)))
  /\ (select primary_card_selector (BeautifulSoup html) = [] ->
      discover_cards (BeautifulSoup html)
      = select legacy_card_selector (BeautifulSoup html)
      /\ parse_listings BeautifulSoup html
         = collect_jobs (select legacy_card_selector (BeautifulSoup html))).
Proof.
  unfold parse_listings, parse_document, discover_cards.
  destruct (select primary_card_selector (BeautifulSoup html)) as [|c cs].
  - split; [congruence|]. intros _. split; reflexivity.
  - split; [|discriminate]. intros _. split; reflexivity.
Qed.

(** In the fixture both selectors match ([div.base-card] lies inside the
    result item): one card is processed, not two.  A page in the legacy
    markup is read through the legacy selector. *)
Lemma card_discovery_first_selector_wins_witness :
  (select legacy_card_selector Samples.sample_soup <> []
   /\ List.length (discover_cards Samples.sample_soup) = 1%nat)
  /\ List.length (parse_listings (fun _ => Samples.legacy_soup) "") = 1%nat.
Proof.
  split.
  - destruct (card_discovery_first_selector_wins (fun _ => Samples.sample_soup) "")
      as (H & _).
    destruct H as (Hd & _); [discriminate|].
    split; [discriminate|]. rewrite Hd. reflexivity.
  - destruct (card_discovery_first_selector_wins (fun _ => Samples.legacy_soup) "")
      as (_ & H).
    destruct H as (_ & Hp); [reflexivity|].
    rewrite Hp. reflexivity.
Defined.

(** ** Dictionaries *)

Lemma mem_spec (k : string) (l : list string) : mem k l = true <-> In k l.
Proof.
  unfold mem. rewrite existsb_exists. split.
  - intros (x & Hin & E). apply String.eqb_eq in E. now subst.
  - intros Hin. exists k. split; [assumption|apply String.eqb_refl].
Qed.

Section DictFacts.
Context {V : Type}.
Implicit Types (d : dict V) (k : string) (v : V) (pairs : list (string * V)).

Lemma dict_get_set_same k v d : dict_get k (dict_set k v d) = Some v.
Proof.
  induction d as [|[k' v'] rest IH]; simpl.
  - now rewrite String.eqb_refl.
  - destruct (String.eqb k k') eqn:E; simpl.
    + now rewrite String.eqb_refl.
    + now rewrite E.
Qed.

Lemma dict_get_set_other k k' v d :
  k' <> k -> dict_get k' (dict_set k v d) = dict_get k' d.
Proof.
  intros Hne. induction d as [|[k0 v0] rest IH]; simpl.
  - apply String.eqb_neq in Hne. now rewrite Hne.
  - destruct (String.eqb k k0) eqn:E; simpl.
    + apply String.eqb_eq in E. subst k0.
      apply String.eqb_neq in Hne. now rewrite Hne.
    + now rewrite IH.
Qed.

Lemma keys_dict_set k v d :
  keys (dict_set k v d)
  = if mem k (keys d) then keys d else (keys d ++ [k])%list.
Proof.
  unfold keys. induction d as [|[k' v'] rest IH]; simpl; [reflexivity|].
  destruct (String.eqb k k') eqn:E; simpl.
  - apply String.eqb_eq in E. now subst.
  - rewrite IH. now destruct (mem k (map fst rest)).
Qed.

Lemma dict_set_fresh k v d :
  ~ In k (keys d) -> dict_set k v d = (d ++ [(k, v)])%list.
Proof.
  unfold keys. induction d as [|[k' v'] rest IH]; simpl; intros Hn; [reflexivity|].
  destruct (String.eqb k k') eqn:E.
  - apply String.eqb_eq in E. subst. tauto.
  - rewrite IH by tauto. reflexivity.
Qed.

Lemma NoDup_snoc (l : list string) k : NoDup l -> ~ In k l -> NoDup (l ++ [k]).
Proof.
  intros Hl Hk. induction Hl as [|x l Hx Hl IH]; simpl.
  - constructor; [tauto|constructor].
  - constructor.
    + rewrite in_app_iff. simpl. intros [H|[H|[]]]; [tauto|].
      subst. apply Hk. now left.
    + apply IH. intros H. apply Hk. now right.
Qed.

Lemma keys_dict_set_NoDup k v d : NoDup (keys d) -> NoDup (keys (dict_set k v d)).
Proof.
  intros Hd. rewrite keys_dict_set.
  destruct (mem k (keys d)) eqn:E; [assumption|].
  apply NoDup_snoc; [assumption|].
  intros Hin. apply mem_spec in Hin. congruence.
Qed.

Lemma insert_all_get k pairs d :
  dict_get k (insert_all pairs d)
  = match last_value k pairs with
    | Some v => Some v
    | None => dict_get k d
    end.
Proof.
  revert d. induction pairs as [|[k' v'] rest IH]; intros d; [reflexivity|].
  cbn [insert_all fold_left fst snd]. fold (insert_all rest (dict_set k' v' d)).
  rewrite IH. cbn [last_value].
  destruct (last_value k rest); [reflexivity|].
  destruct (String.eqb k k') eqn:E.
  - apply String.eqb_eq in E. subst. apply dict_get_set_same.
  - apply String.eqb_neq in E. now apply dict_get_set_other.
Qed.

Lemma insert_all_keys pairs d :
  keys (insert_all pairs d)
  = fold_left (fun seen k => if mem k seen then seen else (seen ++ [k])%list)
              (map fst pairs) (keys d).
Proof.
  revert d. induction pairs as [|[k' v'] rest IH]; intros d; [reflexivity|].
  cbn [insert_all fold_left fst snd map]. fold (insert_all rest (dict_set k' v' d)).
  now rewrite IH, keys_dict_set.
Qed.

Lemma insert_all_NoDup pairs d : NoDup (keys d) -> NoDup (keys (insert_all pairs d)).
Proof.
  revert d. induction pairs as [|[k' v'] rest IH]; intros d Hd; [assumption|].
  cbn [insert_all fold_left fst snd]. fold (insert_all rest (dict_set k' v' d)).
  apply IH. now apply keys_dict_set_NoDup.
Qed.

Lemma insert_all_distinct pairs d :
  NoDup (keys d ++ map fst pairs) -> insert_all pairs d = (d ++ pairs)%list.
Proof.
  revert d. induction pairs as [|[k' v'] rest IH]; intros d Hd.
  - simpl. now rewrite app_nil_r.
  - cbn [insert_all fold_left fst snd]. fold (insert_all rest (dict_set k' v' d)).
    cbn [map fst] in Hd.
    assert (Hfresh : ~ In k' (keys d)).
    { intros Hin. apply NoDup_remove_2 in Hd. apply Hd.
      rewrite in_app_iff. now left. }
    rewrite (dict_set_fresh _ _ _ Hfresh).
    rewrite IH.
    + now rewrite <- app_assoc.
    + unfold keys in *. rewrite map_app, <- app_assoc. exact Hd.
Qed.

Lemma dict_of_pairs_get k pairs :
  dict_get k (dict_of_pairs pairs) = last_value k pairs.
Proof.
  unfold dict_of_pairs. fold (insert_all pairs []).
  rewrite insert_all_get. now destruct (last_value k pairs) as [v|].
Qed.

Lemma dict_of_pairs_keys pairs :
  keys (dict_of_pairs pairs) = first_occurrences (map fst pairs).
Proof.
  unfold dict_of_pairs. fold (insert_all pairs []). apply insert_all_keys.
Qed.

Lemma dict_of_pairs_NoDup pairs : NoDup (keys (dict_of_pairs pairs)).
Proof.
  unfold dict_of_pairs. fold (insert_all pairs []).
  apply insert_all_NoDup. constructor.
Qed.

Lemma dict_of_pairs_distinct pairs :
  NoDup (map fst pairs) -> dict_of_pairs pairs = pairs.
Proof.
  intros H. unfold dict_of_pairs. fold (insert_all pairs []).
  now rewrite insert_all_distinct.
Qed.

End DictFacts.

(** ** Splitting and joining strings *)

Lemma has_char_app (c : ascii) (a b : string) :
  has_char c (a ++ b) = has_char c a || has_char c b.
Proof.
  induction a as [|x a IH]; simpl; [reflexivity|].
  now rewrite IH, orb_assoc.
Qed.

Lemma split_once_none (c : ascii) (s : string) :
  has_char c s = false -> split_once c s = None.
Proof.
  induction s as [|x s IH]; simpl; [reflexivity|].
  intros H. apply orb_false_elim in H. destruct H as (Hx & Hs).
  now rewrite Hx, IH.
Qed.

Lemma split_once_some (c : ascii) (s a b : string) :
  split_once c s = Some (a, b) -> s = a ++ String c b /\ has_char c a = false.
Proof.
  revert a. induction s as [|x s IH]; simpl; intros a; [discriminate|].
  destruct (Ascii.eqb x c) eqn:E.
  - intros [= <- <-]. apply Ascii.eqb_eq in E. now subst.
  - destruct (split_once c s) as [[a' b']|]; [|discriminate].
    intros [= <- <-]. destruct (IH a' eq_refl) as (-> & Ha).
    simpl. now rewrite E, Ha.
Qed.

Lemma split_once_app (c : ascii) (a b : string) :
  has_char c a = false -> split_once c (a ++ String c b) = Some (a, b).
Proof.
  induction a as [|x a IH]; simpl.
  - intros _. now rewrite Ascii.eqb_refl.
  - intros H. apply orb_false_elim in H. destruct H as (Hx & Ha).
    now rewrite Hx, IH.
Qed.

Lemma split_on_clean (c : ascii) (s : string) :
  has_char c s = false -> split_on c s = [s].
Proof.
  induction s as [|x s IH]; simpl; [reflexivity|].
  intros H. apply orb_false_elim in H. destruct H as (Hx & Hs).
  now rewrite Hx, IH.
Qed.

Lemma split_on_app (c : ascii) (a rest : string) :
  has_char c a = false ->
  split_on c (a ++ String c rest) = a :: split_on c rest.
Proof.
  induction a as [|x a IH]; simpl.
  - intros _. now rewrite Ascii.eqb_refl.
  - intros H. apply orb_false_elim in H. destruct H as (Hx & Ha).
    now rewrite Hx, IH.
Qed.

(** Splitting a joined list gives the list back when no part holds the
    separator. *)
Lemma split_on_join (c : ascii) (parts : list string) :
  parts <> [] ->
  (forall p, In p parts -> has_char c p = false) ->
  split_on c (py_join (String c "") parts) = parts.
Proof.
  induction parts as [|p rest IH]; [congruence|].
  intros _ Hclean. destruct rest as [|q rest'].
  - simpl. apply split_on_clean. apply Hclean. now left.
  - change (py_join (String c "") (p :: q :: rest'))
      with (p ++ String c (py_join (String c "") (q :: rest'))).
    rewrite split_on_app by (apply Hclean; now left).
    rewrite IH; [reflexivity|discriminate|].
    intros p' Hin. apply Hclean. now right.
Qed.

Lemma append_nonempty (a b : string) : b <> "" -> a ++ b <> "".
Proof.
  destruct a; simpl; [tauto|discriminate].
Qed.

(** ** Percent-coding on bytes obeys the laws *)

Lemma hex_digit_facts (d : nat) :
  (d < 16)%nat ->
  hex_value (hex_digit d) = Some d
  /\ Ascii.eqb (hex_digit d) "+" = false
  /\ Ascii.eqb (hex_digit d) "&" = false
  /\ Ascii.eqb (hex_digit d) "=" = false
  /\ Ascii.eqb (hex_digit d) "#" = false.
Proof.
  intros Hd.
  do 16 (destruct d as [|d]; [vm_compute; auto|]). lia.
Qed.

Lemma unreserved_not (c x : ascii) :
  is_unreserved x = false -> is_unreserved c = true -> Ascii.eqb c x = false.
Proof.
  intros Hx Hc. destruct (Ascii.eqb c x) eqn:E; [|reflexivity].
  apply Ascii.eqb_eq in E. congruence.
Qed.

Lemma nat_of_ascii_digits (c : ascii) :
  (nat_of_ascii c / 16 < 16)%nat /\ (nat_of_ascii c mod 16 < 16)%nat
  /\ ascii_of_nat (16 * (nat_of_ascii c / 16) + nat_of_ascii c mod 16) = c.
Proof.
  pose proof (nat_ascii_bounded c) as Hb.
  split; [|split].
  - apply Nat.Div0.div_lt_upper_bound. lia.
  - apply Nat.mod_upper_bound. lia.
  - rewrite <- Nat.div_mod_eq. apply ascii_nat_embedding.
Qed.

Lemma unquote_quote_char (c : ascii) (t : string) :
  byte_unquote (plus_to_space (quote_char c ++ t))
  = String c (byte_unquote (plus_to_space t)).
Proof.
  unfold quote_char.
  destruct (is_unreserved c) eqn:U.
  - cbn [append plus_to_space byte_unquote].
    rewrite (unreserved_not c "+" eq_refl U), (unreserved_not c "%" eq_refl U).
    reflexivity.
  - destruct (Ascii.eqb c " ") eqn:S.
    + apply Ascii.eqb_eq in S. subst c. reflexivity.
    + destruct (nat_of_ascii_digits c) as (H1 & H2 & Hc).
      destruct (hex_digit_facts _ H1) as (V1 & P1 & _).
      destruct (hex_digit_facts _ H2) as (V2 & P2 & _).
      cbn [append plus_to_space]. rewrite P1, P2.
      change (Ascii.eqb "%" "+") with false. cbn iota.
      cbn [byte_unquote]. change (Ascii.eqb "%" "%") with true. cbn iota.
      rewrite V1, V2, Hc. reflexivity.
Qed.

Lemma byte_unquote_quote (s : string) :
  byte_unquote_plus (byte_quote_plus s) = s.
Proof.
  unfold byte_unquote_plus.
  induction s as [|c s IH]; [reflexivity|].
  cbn [byte_quote_plus]. now rewrite unquote_quote_char, IH.
Qed.

Lemma quote_char_clean (c : ascii) :
  has_char "&" (quote_char c) = false
  /\ has_char "=" (quote_char c) = false
  /\ has_char "#" (quote_char c) = false.
Proof.
  unfold quote_char.
  destruct (is_unreserved c) eqn:U.
  - cbn [has_char].
    rewrite (unreserved_not c "&" eq_refl U), (unreserved_not c "=" eq_refl U),
            (unreserved_not c "#" eq_refl U).
    auto.
  - destruct (Ascii.eqb c " "); [auto|].
    destruct (nat_of_ascii_digits c) as (H1 & H2 & _).
    destruct (hex_digit_facts _ H1) as (_ & _ & A1 & E1 & S1).
    destruct (hex_digit_facts _ H2) as (_ & _ & A2 & E2 & S2).
    cbn [has_char]. rewrite A1, A2, E1, E2, S1, S2. auto.
Qed.

Lemma byte_quote_clean (sep : ascii) (s : string) :
  sep = "&"%char \/ sep = "="%char \/ sep = "#"%char ->
  has_char sep (byte_quote_plus s) = false.
Proof.
  intros Hsep. induction s as [|c s IH]; [reflexivity|].
  cbn [byte_quote_plus]. rewrite has_char_app, IH, orb_false_r.
  destruct (quote_char_clean c) as (H1 & H2 & H3).
  destruct Hsep as [->|[->| ->]]; assumption.
Qed.

Lemma byte_quote_nonempty (s : string) : s <> "" -> byte_quote_plus s <> "".
Proof.
  destruct s as [|c s]; [congruence|]. intros _. cbn [byte_quote_plus].
  unfold quote_char.
  destruct (is_unreserved c); [discriminate|].
  destruct (Ascii.eqb c " "); discriminate.
Qed.

Lemma byte_unquote_nonempty (s : string) : s <> "" -> byte_unquote_plus s <> "".
Proof.
  destruct s as [|c s]; [congruence|]. intros _.
  unfold byte_unquote_plus. cbn [plus_to_space].
  set (c' := if Ascii.eqb c "+" then " "%char else c).
  cbn [byte_unquote].
  destruct (Ascii.eqb c' "%"); [|discriminate].
  destruct (plus_to_space s) as [|h1 [|h2 rest]]; try discriminate.
  destruct (hex_value h1), (hex_value h2); discriminate.
Qed.

#[export] Instance ByteQuotingLaws : QuotingLaws ByteQuoting.
Proof.
  split; cbn [unquote_plus quote_plus ByteQuoting].
  - exact byte_unquote_quote.
  - intros s. apply byte_quote_clean. auto.
  - intros s. apply byte_quote_clean. auto.
  - intros s. apply byte_quote_clean. auto.
  - exact byte_quote_nonempty.
  - exact byte_unquote_nonempty.
Qed.

(** ** URLs *)

Lemma append_empty_r (s : string) : s ++ "" = s.
Proof.
  induction s as [|c s IH]; simpl; [reflexivity|now rewrite IH].
Qed.

Lemma append_assoc (a b c : string) : (a ++ b) ++ c = a ++ (b ++ c).
Proof.
  induction a as [|x a IH]; simpl; [reflexivity|now rewrite IH].
Qed.

(** What precedes the query holds neither [?] nor [#], and the query holds
    no [#]. *)
Lemma urlparse_clean (url : string) :
  has_char "?" (before_query (urlparse url)) = false
  /\ has_char "#" (before_query (urlparse url)) = false
  /\ has_char "#" (query (urlparse url)) = false.
Proof.
  unfold urlparse.
  assert (Hrest : exists rest frag,
             match split_once "#" url with
             | Some (a, b) => (a, b)
             | None => (url, "")
             end = (rest, frag) /\ has_char "#" rest = false).
  { destruct (split_once "#" url) as [[a b]|] eqn:E.
    - exists a, b. split; [reflexivity|]. now apply split_once_some in E.
    - exists url, "". split; [reflexivity|].
      destruct (has_char "#" url) eqn:H; [|reflexivity].
      clear -E H. exfalso. induction url as [|x s IH]; [discriminate|].
      simpl in *. destruct (Ascii.eqb x "#"); [discriminate|].
      destruct (split_once "#" s) as [[a b]|]; [discriminate|].
      now apply IH. }
  destruct Hrest as (rest & frag & -> & Hclean).
  destruct (split_once "?" rest) as [[a b]|] eqn:E; cbn.
  - apply split_once_some in E. destruct E as (-> & Ha).
    rewrite has_char_app in Hclean. apply orb_false_elim in Hclean.
    destruct Hclean as (H1 & H2). simpl in H2. auto.
  - repeat split; auto.
    destruct (has_char "?" rest) eqn:H; [|reflexivity].
    clear -E H. exfalso. induction rest as [|x s IH]; [discriminate|].
    simpl in *. destruct (Ascii.eqb x "?"); [discriminate|].
    destruct (split_once "?" s) as [[a b]|]; [discriminate|].
    now apply IH.
Qed.

(** Parsing what [urlunparse] writes gives the components back. *)
Lemma urlparse_urlunparse (h q f : string) :
  has_char "?" h = false -> has_char "#" h = false ->
  has_char "#" q = false -> q <> "" ->
  urlparse (urlunparse (mkParseResult h q f)) = mkParseResult h q f.
Proof.
  intros Hq Hh Hqh Hne.
  unfold urlunparse. cbn [before_query query fragment].
  apply truthy_true_iff in Hne. rewrite Hne.
  assert (Hhead : has_char "#" (h ++ "?" ++ q) = false).
  { rewrite has_char_app, Hh. simpl. exact Hqh. }
  unfold urlparse.
  destruct (truthy f) eqn:Hf.
  - replace (h ++ ("?" ++ q) ++ "#" ++ f) with ((h ++ "?" ++ q) ++ String "#" f)
      by (rewrite !append_assoc; reflexivity).
    rewrite (split_once_app _ _ _ Hhead).
    change (h ++ "?" ++ q) with (h ++ String "?" q).
    now rewrite (split_once_app _ _ _ Hq).
  - apply truthy_false_iff in Hf. subst f.
    rewrite !append_empty_r.
    rewrite (split_once_none _ _ Hhead).
    change (h ++ "?" ++ q) with (h ++ String "?" q).
    now rewrite (split_once_app _ _ _ Hq).
Qed.

Lemma has_char_join (c : ascii) (sep : string) (parts : list string) :
  has_char c sep = false ->
  (forall p, In p parts -> has_char c p = false) ->
  has_char c (py_join sep parts) = false.
Proof.
  intros Hsep. induction parts as [|p rest IH]; intros Hparts; [reflexivity|].
  destruct rest as [|q rest'].
  - apply Hparts. now left.
  - change (py_join sep (p :: q :: rest'))
      with (p ++ sep ++ py_join sep (q :: rest')).
    rewrite !has_char_app, Hsep, (Hparts p (or_introl eq_refl)).
    apply IH. intros p' Hin. apply Hparts. now right.
Qed.

Lemma py_join_nonempty (sep : string) (parts : list string) :
  parts <> [] -> (forall p, In p parts -> p <> "") -> py_join sep parts <> "".
Proof.
  destruct parts as [|p rest]; [congruence|]. intros _ Hparts.
  assert (Hp : p <> "") by (apply Hparts; now left).
  destruct rest; simpl; destruct p; simpl; congruence.
Qed.

Lemma str_of_Z_nonempty (z : Z) : str_of_Z z <> "".
Proof.
  unfold str_of_Z, Z.to_int.
  assert (Hu : forall u, u <> Decimal.Nil -> NilEmpty.string_of_uint u <> "")
    by (intros [] ?; simpl; congruence).
  destruct z as [|p|p]; simpl.
  - discriminate.
  - apply Hu, Unsigned.to_uint_nonnil.
  - discriminate.
Qed.

Section QueryFacts.
Context {Q : Quoting}.

(** [parse_qsl] keeps the written fields whose value is not empty, decoded. *)
Lemma parse_fields_kept (fields : list string) :
  parse_fields fields
  = map decode_pair (filter nonblank (map split_field (filter truthy fields))).
Proof.
  induction fields as [|f rest IH]; [reflexivity|].
  cbn [parse_fields filter]. unfold parse_field, nonblank.
  destruct (truthy f) eqn:Hf; cbn [negb]; [|exact IH].
  cbn [map filter]. unfold split_field at 1 2.
  destruct (split_once "=" f) as [[name val]|]; cbn [snd truthy].
  - destruct (truthy val); cbn [map]; rewrite IH; reflexivity.
  - exact IH.
Qed.

Lemma parse_qsl_kept (qs : string) : parse_qsl qs = kept_fields qs.
Proof.
  apply parse_fields_kept.
Qed.

Lemma paged_query_start (base : string) (start : Z) :
  dict_get "start" (paged_query base start) = Some (str_of_Z start).
Proof.
  apply dict_get_set_same.
Qed.

Lemma paged_query_other (base : string) (start : Z) (k : string) :
  k <> "start" ->
  dict_get k (paged_query base start)
  = last_value k (parse_qsl (query (urlparse base))).
Proof.
  intros Hk. unfold paged_query.
  now rewrite dict_get_set_other, dict_of_pairs_get.
Qed.

Lemma paged_query_keys (base : string) (start : Z) :
  keys (paged_query base start)
  = first_occurrences
      (map fst (parse_qsl (query (urlparse base))) ++ ["start"])%list.
Proof.
  unfold paged_query. rewrite keys_dict_set, dict_of_pairs_keys.
  unfold first_occurrences. now rewrite fold_left_app.
Qed.

Lemma paged_query_NoDup (base : string) (start : Z) :
  NoDup (keys (paged_query base start)).
Proof.
  apply keys_dict_set_NoDup, dict_of_pairs_NoDup.
Qed.

Lemma append_start_param_unfold (base : string) (start : Z) :
  _append_start_param base start
  = urlunparse (replace_query (urlparse base)
                              (urlencode (paged_query base start))).
Proof.
  reflexivity.
Qed.

Context {L : QuotingLaws Q}.

Lemma parse_fields_values (fields : list string) :
  Forall (fun kv => snd kv <> "") (parse_fields fields).
Proof.
  induction fields as [|f rest IH]; [constructor|].
  cbn [parse_fields]. unfold parse_field.
  destruct (negb (truthy f)); [exact IH|].
  destruct (split_once "=" f) as [[name val]|]; [|exact IH].
  destruct (truthy val) eqn:Hv; [|exact IH].
  constructor; [|exact IH].
  cbn [snd]. apply unquote_nonempty. now apply truthy_true_iff.
Qed.

Lemma dict_set_values (k v : string) (d : dict string) :
  v <> "" -> Forall (fun kv => snd kv <> "") d ->
  Forall (fun kv => snd kv <> "") (dict_set k v d).
Proof.
  intros Hv Hd. induction Hd as [|[k' v'] rest Hx Hrest IH]; simpl.
  - constructor; [exact Hv|constructor].
  - destruct (String.eqb k k'); constructor; auto.
Qed.

Lemma insert_all_values (pairs : list (string * string)) (d : dict string) :
  Forall (fun kv => snd kv <> "") pairs ->
  Forall (fun kv => snd kv <> "") d ->
  Forall (fun kv => snd kv <> "") (insert_all pairs d).
Proof.
  intros Hp. revert d. induction Hp as [|[k v] rest Hx Hrest IH]; intros d Hd.
  - exact Hd.
  - cbn [insert_all fold_left fst snd].
    fold (insert_all rest (dict_set k v d)).
    apply IH. now apply dict_set_values.
Qed.

Lemma paged_query_values (base : string) (start : Z) :
  Forall (fun kv => snd kv <> "") (paged_query base start).
Proof.
  unfold paged_query. apply dict_set_values; [apply str_of_Z_nonempty|].
  unfold dict_of_pairs. fold (insert_all (parse_qsl (query (urlparse base))) []).
  apply insert_all_values; [apply parse_fields_values|constructor].
Qed.

Lemma paged_query_nonempty (base : string) (start : Z) :
  paged_query base start <> [].
Proof.
  intros H. pose proof (paged_query_start base start) as Hs.
  rewrite H in Hs. discriminate.
Qed.

(** One encoded field reads back as the pair it encodes. *)
Lemma parse_field_encoded (k v : string) :
  v <> "" ->
  parse_field (quote_plus k ++ "=" ++ quote_plus v) = Some (k, v).
Proof.
  intros Hv. unfold parse_field.
  assert (Hne : quote_plus k ++ "=" ++ quote_plus v <> "")
    by (apply append_nonempty; discriminate).
  apply truthy_true_iff in Hne. rewrite Hne. cbn [negb].
  change (quote_plus k ++ "=" ++ quote_plus v)
    with (quote_plus k ++ String "=" (quote_plus v)).
  rewrite (split_once_app _ _ _ (quote_no_eq k)).
  assert (Hq : truthy (quote_plus v) = true)
    by (apply truthy_true_iff, quote_nonempty, Hv).
  now rewrite Hq, !unquote_quote.
Qed.

Lemma parse_fields_encoded (d : dict string) :
  Forall (fun kv => snd kv <> "") d ->
  parse_fields
    (map (fun kv => quote_plus (fst kv) ++ "=" ++ quote_plus (snd kv)) d) = d.
Proof.
  induction 1 as [|[k v] rest Hx Hrest IH]; [reflexivity|].
  cbn [map parse_fields fst snd].
  rewrite (parse_field_encoded k v Hx). now rewrite IH.
Qed.

Lemma encoded_field_clean (c : ascii) (k v : string) :
  has_char c (quote_plus k) = false -> has_char c (quote_plus v) = false ->
  Ascii.eqb "=" c = false ->
  has_char c (quote_plus k ++ "=" ++ quote_plus v) = false.
Proof.
  intros Hk Hv Hc.
  change (quote_plus k ++ "=" ++ quote_plus v)
    with (quote_plus k ++ String "=" (quote_plus v)).
  rewrite has_char_app. cbn [has_char]. now rewrite Hk, Hc, Hv.
Qed.

(** Decoding an encoded dictionary gives the dictionary back. *)
Lemma parse_qsl_urlencode (d : dict string) :
  Forall (fun kv => snd kv <> "") d -> parse_qsl (urlencode d) = d.
Proof.
  intros Hd. unfold parse_qsl, urlencode.
  destruct d as [|kv rest]; [reflexivity|].
  rewrite split_on_join.
  - now apply parse_fields_encoded.
  - discriminate.
  - intros p Hin. apply in_map_iff in Hin. destruct Hin as ([k v] & <- & _).
    apply encoded_field_clean; [apply quote_no_amp|apply quote_no_amp|reflexivity].
Qed.

Lemma urlencode_no_hash (d : dict string) : has_char "#" (urlencode d) = false.
Proof.
  unfold urlencode. apply has_char_join; [reflexivity|].
  intros p Hin. apply in_map_iff in Hin. destruct Hin as ([k v] & <- & _).
  apply encoded_field_clean; [apply quote_no_hash|apply quote_no_hash|reflexivity].
Qed.

Lemma urlencode_nonempty (d : dict string) : d <> [] -> urlencode d <> "".
Proof.
  intros Hd. unfold urlencode. apply py_join_nonempty.
  - destruct d; [congruence|discriminate].
  - intros p Hin. apply in_map_iff in Hin. destruct Hin as ([k v] & <- & _).
    apply append_nonempty. discriminate.
Qed.

(** Parsing the paged URL: the query is the encoded dictionary, the rest
    of the URL is that of the base URL. *)
Lemma urlparse_append_start_param (base : string) (start : Z) :
  urlparse (_append_start_param base start)
  = replace_query (urlparse base) (urlencode (paged_query base start)).
Proof.
  rewrite append_start_param_unfold. unfold replace_query.
  destruct (urlparse_clean base) as (H1 & H2 & _).
  apply urlparse_urlunparse; auto.
  - apply urlencode_no_hash.
  - apply urlencode_nonempty, paged_query_nonempty.
Qed.

Lemma parse_qsl_append_start_param (base : string) (start : Z) :
  parse_qsl (query (urlparse (_append_start_param base start)))
  = paged_query base start.
Proof.
  rewrite urlparse_append_start_param. cbn [replace_query query].
  apply parse_qsl_urlencode, paged_query_values.
Qed.

End QueryFacts.

Lemma last_value_None {V} (k : string) (pairs : list (string * V)) :
  last_value k pairs = None <-> ~ In k (map fst pairs).
Proof.
  induction pairs as [|[k' v] rest IH]; simpl; [tauto|].
  destruct (last_value k rest) as [v'|].
  - split; [discriminate|]. intros H. exfalso.
    assert (Hn : ~ In k (map fst rest)) by tauto.
    apply IH in Hn. discriminate.
  - destruct (String.eqb k k') eqn:E.
    + apply String.eqb_eq in E. subst. split; [discriminate|tauto].
    + apply String.eqb_neq in E. split; [|reflexivity].
      intros _ [H|H]; [congruence|]. now apply IH in H.
Qed.

Lemma dict_get_None {V} (k : string) (d : dict V) :
  dict_get k d = None <-> ~ In k (keys d).
Proof.
  unfold keys. induction d as [|[k' v] rest IH]; simpl; [tauto|].
  destruct (String.eqb k k') eqn:E.
  - apply String.eqb_eq in E. subst. split; [discriminate|tauto].
  - apply String.eqb_neq in E. rewrite IH. split; [|tauto].
    intros H [H'|H']; [congruence|tauto].
Qed.







(** ** The page fetcher *)

Section FetchFacts.

Variables World Exn Response Params : Type.
Variable proxy_manager : option (World -> result Exn (option string) * World).
Variable max_retries : Z.
Variable request_timeout : Z.
Variable session_get :
  string -> option Params -> option (string * string) -> Z ->
  World -> result Exn Response * World.
Variable raise_for_status : Response -> option Exn.
Variable resp_text : Response -> string.
Variable emit : Fetcher.log_record Exn -> World -> World.
Variable sleep_delay : World -> World.

Local Abbreviation attempt_once :=
  (Fetcher.attempt_once World Exn Response Params proxy_manager max_retries
                        request_timeout session_get raise_for_status
                        resp_text emit).
Local Abbreviation fetch_loop :=
  (Fetcher.fetch_loop World Exn Response Params proxy_manager max_retries
                      request_timeout session_get raise_for_status
                      resp_text emit sleep_delay).
Local Abbreviation _fetch_page :=
  (Fetcher._fetch_page World Exn Response Params proxy_manager max_retries
                       request_timeout session_get raise_for_status
                       resp_text emit sleep_delay).
Local Abbreviation failing_run :=
  (Fetcher.failing_run World Exn Response Params proxy_manager max_retries
                       request_timeout session_get raise_for_status
                       resp_text emit sleep_delay).
Local Abbreviation succeeding_run :=
  (Fetcher.succeeding_run World Exn Response Params proxy_manager max_retries
                          request_timeout session_get raise_for_status
                          resp_text emit sleep_delay).

Lemma fetch_loop_S url params n k last w :
  fetch_loop url params (S n) k last w
  = match attempt_once url params k w with
    | (Ok text, w') => (Ok text, w')
    | (Err e, w') =>
        fetch_loop url params n (k + 1) (Some e)
                   (Fetcher.after_failure World Exn max_retries emit
                                          sleep_delay url k e w')
    end.
Proof.
  reflexivity.
Qed.

Lemma fetch_loop_all_fail url params n k w e w' :
  failing_run url params n k w e w' ->
  forall last, fetch_loop url params n k last w
               = (Err (Fetcher.Raised e), w').
Proof.
  induction 1 as [k w e w1 Ha|n k w e0 w1 e w' Ha Hrun IH]; intros last;
    rewrite fetch_loop_S, Ha.
  - reflexivity.
  - apply IH.
Qed.

Lemma fetch_loop_success url params n k w text w' :
  succeeding_run url params n k w text w' ->
  forall m last, (n < m)%nat ->
                 fetch_loop url params m k last w = (Ok text, w').
Proof.
  induction 1 as [k w text w' Ha|n k w e0 w1 text w' Ha Hrun IH];
    intros m last Hm; (destruct m as [|m]; [lia|]);
    rewrite fetch_loop_S, Ha; [reflexivity|].
  apply IH. lia.
Qed.

Lemma fetch_loop_err url params n :
  forall k last w x w',
    fetch_loop url params n k last w = (Err x, w') ->
    (n = 0%nat /\ w' = w
     /\ x = match last with
            | Some e => Fetcher.Raised e
            | None => Fetcher.AssertionError
            end)
    \/ exists e, x = Fetcher.Raised e /\ failing_run url params n k w e w'.
Proof.
  induction n as [|n IH]; intros k last w x w' H.
  - left. cbn [Fetcher.fetch_loop] in H.
    destruct last; injection H as <- <-; auto.
  - right. rewrite fetch_loop_S in H.
    destruct (attempt_once url params k w) as [[text|e0] w1] eqn:Ha;
      [discriminate|].
    destruct (IH _ _ _ _ _ H) as [(-> & -> & ->)|(e & -> & Hrun)].
    + exists e0. split; [reflexivity|]. now constructor.
    + exists e. split; [reflexivity|].
      destruct n as [|n]; [inversion Hrun|].
      econstructor; eassumption.
Qed.

Lemma fetch_loop_ok url params n :
  forall k last w text w',
    fetch_loop url params n k last w = (Ok text, w') ->
    exists j, (j < n)%nat /\ succeeding_run url params j k w text w'.
Proof.
  induction n as [|n IH]; intros k last w text w' H.
  - cbn [Fetcher.fetch_loop] in H. destruct last; discriminate.
  - rewrite fetch_loop_S in H.
    destruct (attempt_once url params k w) as [[t|e0] w1] eqn:Ha.
    + injection H as <- <-. exists 0%nat. split; [lia|]. now constructor.
    + destruct (IH _ _ _ _ _ H) as (j & Hj & Hrun).
      exists (S j). split; [lia|]. econstructor; eassumption.
Qed.

(** A successful attempt returns the text of a response that
    [raise_for_status] accepts. *)
Lemma attempt_once_ok url params k w text w' :
  attempt_once url params k w = (Ok text, w') ->
  exists resp, raise_for_status resp = None /\ text = resp_text resp.
Proof.
  unfold Fetcher.attempt_once.
  destruct (match proxy_manager with
            | Some get_proxy => get_proxy w
            | None => (Ok None, w)
            end) as [[proxy|e] w1]; [|discriminate].
  destruct (session_get _ _ _ _ _) as [[resp|e] w3]; [|discriminate].
  destruct (raise_for_status resp) eqn:Hs; [discriminate|].
  intros [= <- <-]. now exists resp.
Qed.


End FetchFacts.



(** ** The pagination driver *)

Section ScrapeFacts.

Context {Q : Quoting}.
Variables World Raised : Type.
Variable fetch_page : string -> World -> result Raised string * World.
Variable parse_listings : string -> list JobPosting.
Variable emit : Driver.log_record -> World -> World.
Variable sleep_delay : World -> World.
Variable max_jobs : Z.

Local Abbreviation append_jobs := (Driver.append_jobs max_jobs).
Local Abbreviation scrape_loop :=
  (Driver.scrape_loop World Raised fetch_page parse_listings emit sleep_delay
                      max_jobs).
Local Abbreviation scrape_search :=
  (Driver.scrape_search World Raised fetch_page parse_listings emit
                        sleep_delay max_jobs).
Local Abbreviation len := (@Driver.len (dict value)).

(** The inner loop appends the jobs of the page up to the cap. *)
Lemma append_jobs_firstn (page_jobs : list JobPosting) :
  forall all_jobs,
    (len all_jobs < max_jobs)%Z ->
    append_jobs page_jobs all_jobs
    = (all_jobs
         ++ firstn (Z.to_nat (max_jobs - len all_jobs)) (map to_dict page_jobs))%list.
Proof.
  unfold Driver.len.
  induction page_jobs as [|job rest IH]; intros all_jobs Hlt.
  - cbn [Driver.append_jobs map]. now rewrite firstn_nil, app_nil_r.
  - cbn [Driver.append_jobs map]. unfold Driver.len.
    rewrite length_app. cbn [List.length].
    replace (Z.to_nat (max_jobs - Z.of_nat (List.length all_jobs)))
      with (S (Z.to_nat (max_jobs - Z.of_nat (List.length all_jobs + 1))))
      by lia.
    cbn [firstn].
    destruct (Z.geb_spec (Z.of_nat (List.length all_jobs + 1)) max_jobs) as [Hge|Hlt'].
    + replace (Z.to_nat (max_jobs - Z.of_nat (List.length all_jobs + 1)))
        with 0%nat by lia.
      reflexivity.
    + rewrite IH by (rewrite length_app; cbn [List.length]; lia).
      rewrite length_app. cbn [List.length].
      now rewrite <- app_assoc.
Qed.

Lemma append_jobs_length (page_jobs : list JobPosting) (all_jobs : list (dict value)) :
  (len all_jobs < max_jobs)%Z ->
  (len (append_jobs page_jobs all_jobs) <= max_jobs)%Z
  /\ (page_jobs <> [] ->
      (len all_jobs < len (append_jobs page_jobs all_jobs))%Z).
Proof.
  intros Hlt. rewrite (append_jobs_firstn _ _ Hlt).
  unfold Driver.len in *. rewrite length_app, length_firstn, length_map.
  split; [lia|].
  intros Hne. destruct page_jobs; [congruence|]. cbn [List.length]. lia.
Qed.

Lemma scrape_loop_eq fuel search_url start all_jobs w :
  scrape_loop fuel search_url start all_jobs w
  = if (len all_jobs <? max_jobs)%Z then
      match fuel with
      | O => None
      | S fuel' =>
          let paged_url := _append_start_param search_url start in
          let w1 := emit (Driver.LogScraping start paged_url) w in
          match fetch_page paged_url w1 with
          | (Err e, w2) => Some (Err e, w2)
          | (Ok html, w2) =>
              match parse_listings html with
              | [] => Some (Ok all_jobs, emit Driver.LogNoFurther w2)
              | _ :: _ =>
                  let all_jobs' := append_jobs (parse_listings html) all_jobs in
                  let w3 := emit (Driver.LogAccumulated
                                    (List.length all_jobs')
                                    (List.length (parse_listings html))) w2 in
                  scrape_loop fuel' search_url (start + Driver.page_size_guess)
                              all_jobs' (sleep_delay w3)
              end
          end
      end
    else Some (Ok all_jobs, w).
Proof.
  destruct fuel; reflexivity.
Qed.

(** The loop ends within the fuel that is left for the missing jobs. *)
Lemma scrape_loop_terminates fuel :
  forall search_url start all_jobs w,
    (Z.to_nat (max_jobs - len all_jobs) <= fuel)%nat ->
    exists r, scrape_loop fuel search_url start all_jobs w = Some r.
Proof.
  induction fuel as [|fuel IH]; intros search_url start all_jobs w Hfuel;
    rewrite scrape_loop_eq;
    destruct (Z.ltb_spec (len all_jobs) max_jobs) as [Hlt|Hge];
    try (eexists; reflexivity); [lia|].
  cbv zeta.
  destruct (fetch_page _ _) as [[html|e] w2]; [|eexists; reflexivity].
  destruct (parse_listings html) as [|job rest] eqn:Hp; [eexists; reflexivity|].
  apply IH.
  destruct (append_jobs_length (job :: rest) all_jobs Hlt) as (_ & Hgrow).
  specialize (Hgrow ltac:(discriminate)). lia.
Qed.

(** The jobs returned are never more than [max_jobs], once that many are
    not there already. *)
Lemma scrape_loop_bound fuel :
  forall search_url start all_jobs w jobs w',
    (len all_jobs <= Z.max 0 max_jobs)%Z ->
    scrape_loop fuel search_url start all_jobs w = Some (Ok jobs, w') ->
    (len jobs <= Z.max 0 max_jobs)%Z.
Proof.
  induction fuel as [|fuel IH]; intros search_url start all_jobs w jobs w' Hinv;
    rewrite scrape_loop_eq;
    destruct (Z.ltb_spec (len all_jobs) max_jobs) as [Hlt|Hge];
    try discriminate; try (intros [= <- <-]; exact Hinv).
  cbv zeta.
  destruct (fetch_page _ _) as [[html|e] w2]; [|discriminate].
  destruct (parse_listings html) as [|job rest] eqn:Hp.
  - intros [= <- <-]. exact Hinv.
  - apply IH.
    destruct (append_jobs_length (job :: rest) all_jobs Hlt) as (Hle & _). lia.
Qed.

(** A failure of the fetcher ends the scrape with that failure: the jobs
    gathered so far are not returned. *)
Lemma scrape_loop_fetch_error fuel search_url start all_jobs w e w2 :
  (len all_jobs < max_jobs)%Z ->
  fetch_page (_append_start_param search_url start)
             (emit (Driver.LogScraping start
                                       (_append_start_param search_url start)) w)
  = (Err e, w2) ->
  scrape_loop (S fuel) search_url start all_jobs w = Some (Err e, w2).
Proof.
  intros Hlt Hfetch. rewrite scrape_loop_eq.
  apply Z.ltb_lt in Hlt. rewrite Hlt. cbv zeta. now rewrite Hfetch.
Qed.

Lemma scrape_search_terminates search_url w :
  exists r, scrape_search search_url w = Some r.
Proof.
  apply scrape_loop_terminates. unfold Driver.len. cbn [List.length]. lia.
Qed.

Lemma scrape_search_bound search_url w jobs w' :
  scrape_search search_url w = Some (Ok jobs, w') ->
  (len jobs <= Z.max 0 max_jobs)%Z.
Proof.
  apply scrape_loop_bound. unfold Driver.len. cbn [List.length]. lia.
Qed.

End ScrapeFacts.

(** *** The driver on the counting stub *)

Section StubFacts.

Context {Q : Quoting}.
Variable pages : nat -> string -> string.
Variable extract : string -> list JobPosting.
Variable search_url : string.

(** The pages the first two calls return: the driver asks for the offsets
    0 and 25. *)
Local Abbreviation first_page := (pages 0 (_append_start_param search_url 0)).
Local Abbreviation second_page := (pages 1 (_append_start_param search_url 25)).

(** One page holds at least as many jobs as are missing: a single fetch,
    and the first jobs of that page are returned. *)
Lemma stub_single_page (max_jobs : Z) :
  (0 < max_jobs <= Z.of_nat (List.length (extract first_page)))%Z ->
  Stub.scrape_search pages extract max_jobs search_url
  = Some (Ok (firstn (Z.to_nat max_jobs) (map to_dict (extract first_page))),
          1%nat).
Proof.
  intros Hmax. unfold Stub.scrape_search, Driver.scrape_search.
  destruct (Z.to_nat max_jobs) as [|fuel] eqn:Hfuel; [lia|].
  rewrite scrape_loop_eq.
  replace (Driver.len [] <? max_jobs)%Z with true
    by (symmetry; apply Z.ltb_lt; cbn; lia).
  cbv beta iota zeta delta [Stub.fetch Stub.silent Stub.no_sleep].
  destruct (extract first_page) as [|job rest] eqn:Hp;
    [cbn [List.length] in Hmax; lia|].
  rewrite scrape_loop_eq.
  rewrite append_jobs_firstn by (cbn; lia).
  cbn [app]. change (Driver.len []) with 0%Z. rewrite Z.sub_0_r, Hfuel.
  replace (Driver.len (firstn (S fuel) (map to_dict (job :: rest))) <? max_jobs)%Z
    with false; [reflexivity|].
  symmetry. apply Z.ltb_ge. unfold Driver.len.
  rewrite length_firstn, length_map. lia.
Qed.

(** A first page of [N > 0] jobs below the cap, then an empty page: two
    fetches, and the jobs of the first page are returned. *)
Lemma stub_two_pages (max_jobs : Z) :
  extract first_page <> [] ->
  extract second_page = [] ->
  (Z.of_nat (List.length (extract first_page)) < max_jobs)%Z ->
  Stub.scrape_search pages extract max_jobs search_url
  = Some (Ok (map to_dict (extract first_page)), 2%nat).
Proof.
  intros Hne Hempty Hmax. unfold Stub.scrape_search, Driver.scrape_search.
  destruct (extract first_page) as [|job rest] eqn:Hp; [congruence|].
  cbn [List.length] in Hmax.
  destruct (Z.to_nat max_jobs) as [|[|fuel]] eqn:Hfuel; [lia|lia|].
  rewrite scrape_loop_eq.
  replace (Driver.len [] <? max_jobs)%Z with true
    by (symmetry; apply Z.ltb_lt; cbn; lia).
  cbv beta iota zeta delta [Stub.fetch Stub.silent Stub.no_sleep].
  rewrite Hp.
  rewrite scrape_loop_eq.
  rewrite append_jobs_firstn by (cbn; lia).
  cbn [app]. change (Driver.len []) with 0%Z. rewrite Z.sub_0_r, Hfuel.
  rewrite firstn_all2 by (rewrite length_map; cbn [List.length]; lia).
  replace (Driver.len (map to_dict (job :: rest)) <? max_jobs)%Z with true
    by (symmetry; apply Z.ltb_lt; unfold Driver.len;
        rewrite length_map; cbn [List.length]; lia).
  cbv beta iota zeta delta [Stub.fetch Stub.silent Stub.no_sleep].
  change (0 + Driver.page_size_guess)%Z with 25%Z.
  now rewrite Hempty.
Qed.

(** An empty first page: the result is empty, after one fetch when
    [max_jobs] is positive and none otherwise. *)
Lemma stub_empty_first_page (max_jobs : Z) :
  extract first_page = [] ->
  Stub.scrape_search pages extract max_jobs search_url
  = Some (Ok [], if (0 <? max_jobs)%Z then 1%nat else 0%nat).
Proof.
  intros Hempty. unfold Stub.scrape_search, Driver.scrape_search.
  rewrite scrape_loop_eq. change (Driver.len []) with 0%Z.
  destruct (Z.ltb_spec 0 max_jobs) as [Hpos|Hneg]; [|reflexivity].
  destruct (Z.to_nat max_jobs) as [|fuel] eqn:Hfuel; [lia|].
  cbv beta iota zeta delta [Stub.fetch Stub.silent Stub.no_sleep].
  now rewrite Hempty.
Qed.

End StubFacts.




(** C4.  On a stub whose first page (offset 0) extracts to [N > 0] records
    and whose second page (offset 25) extracts to none, with
    [max_jobs > N], [scrape_search] returns those [N] records in order
    after two fetch calls; when the first page extracts to none, it returns
    the empty list (after one fetch call, or none when [max_jobs] is not
    positive) and does not fail. *)
Theorem scrape_search_stops_at_empty_page {Q : Quoting}
        (pages : nat -> string -> string) (extract : string -> list JobPosting)
        (max_jobs : Z) (search_url : string) :
  ((0 < List.length (extract (pages 0 (_append_start_param search_url 0))))%nat ->
   extract (pages 1%nat (_append_start_param search_url 25)) = [] ->
   (Z.of_nat (List.length (extract (pages 0%nat (_append_start_param search_url 0))))
    < max_jobs)%Z ->
   Stub.scrape_search pages extract max_jobs search_url
   = Some (Ok (map to_dict (extract (pages 0%nat (_append_start_param search_url 0)))),
           2%nat))
  /\ (extract (pages 0%nat (_append_start_param search_url 0)) = [] ->
      exists calls,
        Stub.scrape_search pages extract max_jobs search_url
        = Some (Ok [], calls)
        /\ (calls <= 1)%nat).
Proof.
  split.
  - intros Hpos Hempty Hmax. apply stub_two_pages; auto.
    intros E. rewrite E in Hpos. cbn in Hpos. lia.
  - intros Hempty. rewrite (stub_empty_first_page _ _ _ _ Hempty).
    eexists. split; [reflexivity|].
    destruct (0 <? max_jobs)%Z; lia.
Qed.

Lemma scrape_search_stops_at_empty_page_witness :
  StubSamples.scrape StubSamples.two_pages StubSamples.three_then_none 10
  = Some (Ok (map to_dict (map StubSamples.numbered_job (seq 0 3))), 2%nat)
  /\ exists calls,
       StubSamples.scrape StubSamples.two_pages (fun _ => []) 10
       = Some (Ok [], calls) /\ (calls <= 1)%nat.
Proof.
  split.
  - destruct (@scrape_search_stops_at_empty_page
                ByteQuoting StubSamples.two_pages StubSamples.three_then_none
                10 StubSamples.search_url) as (H & _).
    unfold StubSamples.scrape. rewrite H.
    + reflexivity.
    + vm_compute. lia.
    + reflexivity.
    + reflexivity.
  - destruct (@scrape_search_stops_at_empty_page
                ByteQuoting StubSamples.two_pages (fun _ => [])
                10 StubSamples.search_url) as (_ & H).
    exact (H eq_refl).
Defined.

(** ** The record exporter *)

Section ExportFacts.

Variable json_dump : list (dict value) -> string.
Variable to_csv : list (dict value) -> string.
Variable to_excel : list (dict value) -> string.
Variable to_html : list (dict value) -> string.
Variable xml_write : DataExporter.xml -> string.

Local Abbreviation export :=
  (DataExporter.export json_dump to_csv to_excel to_html xml_write).

Lemma ensure_parent_dir_files (path : string) (fs : FS) :
  files (DataExporter._ensure_parent_dir path fs) = files fs.
Proof.
  unfold DataExporter._ensure_parent_dir.
  destruct (truthy _ && negb _); reflexivity.
Qed.

Lemma not_in_formats (fmt : string) :
  ~ In fmt DataExporter.formats ->
  String.eqb fmt "json" = false /\ String.eqb fmt "csv" = false
  /\ String.eqb fmt "excel" = false /\ String.eqb fmt "xml" = false
  /\ String.eqb fmt "html" = false.
Proof.
  unfold DataExporter.formats. intros Hn.
  repeat split; apply String.eqb_neq; intros ->; apply Hn; simpl; tauto.
Qed.


End ExportFacts.



(** * Further properties of the code *)

(** ** The extractor: order, fallback and stripping *)

Lemma collect_jobs_filter (cards : list node) :
  collect_jobs cards = map posting_of (filter has_title cards).
Proof.
  unfold has_title.
  induction cards as [|card rest IH]; [reflexivity|].
  cbn [collect_jobs filter].
  destruct (title_less card) eqn:Ht; cbn [negb].
  - now rewrite (parse_single_card_none _ Ht).
  - destruct (parse_single_card_some _ Ht) as (job & Hj & _).
    rewrite Hj, (parse_single_card_fields _ _ Hj). cbn [map]. now rewrite IH.
Qed.

(** X1.  [parse_listings] returns one record for each discovered card that
    has a title, in the document order of the cards, and the record of a
    card is built from that card alone. *)
Theorem parse_listings_in_card_order
        (BeautifulSoup : string -> node) (html : string) :
  parse_listings BeautifulSoup html
  = map posting_of (filter has_title (discover_cards (BeautifulSoup html))).
Proof.
  apply collect_jobs_filter.
Qed.

(** X2.  An [or]-chain of selectors gives the text of the first selector
    whose text is not empty, whatever the later selectors match. *)
Theorem first_text_first_nonempty
        (card : node) (before : list selector) (s : selector)
        (after : list selector) :
  (forall s', In s' before -> safe_text card s' = "") ->
  safe_text card s <> "" ->
  first_text card (before ++ s :: after)%list = safe_text card s.
Proof.
  intros Hbefore Hs.
  induction before as [|b rest IH]; cbn [app].
  - destruct after as [|a after']; [reflexivity|].
    change (first_text card (s :: a :: after'))
      with (py_or (safe_text card s) (first_text card (a :: after'))).
    unfold py_or. apply truthy_true_iff in Hs. now rewrite Hs.
  - assert (Hb : safe_text card b = "") by (apply Hbefore; now left).
    assert (IH' : first_text card (rest ++ s :: after)%list = safe_text card s)
      by (apply IH; intros s' Hin; apply Hbefore; now right).
    destruct (rest ++ s :: after)%list as [|x xs] eqn:E.
    + destruct rest; discriminate.
    + change (first_text card (b :: x :: xs))
        with (py_or (safe_text card b) (first_text card (x :: xs))).
      unfold py_or. now rewrite Hb.
Qed.

(** In the fixture the first two title selectors match nothing and the
    third gives the title. *)
Lemma first_text_first_nonempty_witness :
  job_title (posting_of Samples.sample_card) = "Software Engineer".
Proof.
  refine (eq_trans
            (first_text_first_nonempty
               Samples.sample_card
               [tag_class "a" "job-card-list__title";
                tag_class "a" "base-card__full-link"]
               (tag_class "h3" "base-search-card__title")
               [tag_only "h3"] _ _) _).
  - intros s' [<-|[<-|[]]]; reflexivity.
  - discriminate.
  - reflexivity.
Defined.

Lemma lstrip_starts_clean (s : string) : starts_clean (lstrip s) = true.
Proof.
  induction s as [|c s IH]; [reflexivity|].
  cbn [lstrip]. destruct (is_space c) eqn:E; [exact IH|].
  cbn [starts_clean]. now rewrite E.
Qed.

Lemma rstrip_starts_clean (s : string) :
  starts_clean s = true -> starts_clean (rstrip s) = true.
Proof.
  destruct s as [|c s]; [reflexivity|].
  cbn [starts_clean rstrip]. intros Hc.
  apply negb_true_iff in Hc. rewrite Hc.
  destruct (rstrip s); cbn [starts_clean]; now rewrite Hc.
Qed.

Lemma lstrip_clean (s : string) : starts_clean s = true -> lstrip s = s.
Proof.
  destruct s as [|c s]; [reflexivity|].
  cbn [starts_clean lstrip]. now destruct (is_space c).
Qed.

Lemma rstrip_idempotent (s : string) : rstrip (rstrip s) = rstrip s.
Proof.
  induction s as [|c s IH]; [reflexivity|].
  cbn [rstrip]. destruct (rstrip s) as [|r rs] eqn:E.
  - destruct (is_space c) eqn:Hc; [reflexivity|].
    cbn [rstrip]. now rewrite Hc.
  - cbn [rstrip]. cbn [rstrip] in IH. rewrite IH. reflexivity.
Qed.

Lemma rstrip_app (a b : string) :
  b <> "" -> rstrip b = b -> rstrip (a ++ b) = a ++ b.
Proof.
  intros Hne Hb. induction a as [|c a IH]; [exact Hb|].
  cbn [append rstrip]. rewrite IH.
  destruct (a ++ b) eqn:E; [|reflexivity].
  destruct a; cbn in E; congruence.
Qed.

Lemma stripped_iff (s : string) :
  stripped s <-> starts_clean s = true /\ rstrip s = s.
Proof.
  unfold stripped, py_strip. split.
  - intros H.
    assert (Hc : starts_clean s = true).
    { rewrite <- H. apply rstrip_starts_clean, lstrip_starts_clean. }
    split; [exact Hc|]. now rewrite (lstrip_clean _ Hc) in H.
  - intros (Hc & Hr). now rewrite (lstrip_clean _ Hc).
Qed.

Lemma py_strip_stripped (s : string) : stripped (py_strip s).
Proof.
  apply stripped_iff. unfold py_strip. split.
  - apply rstrip_starts_clean, lstrip_starts_clean.
  - apply rstrip_idempotent.
Qed.

Lemma starts_clean_app (a b : string) :
  a <> "" -> starts_clean a = true -> starts_clean (a ++ b) = true.
Proof.
  destruct a; [congruence|]. intros _ H. exact H.
Qed.

(** Joining stripped, non-empty pieces gives a stripped string, whatever
    the separator. *)
Lemma py_join_stripped (sep : string) (pieces : list string) :
  (forall p, In p pieces -> p <> "" /\ stripped p) ->
  stripped (py_join sep pieces).
Proof.
  induction pieces as [|p rest IH]; intros Hp; [reflexivity|].
  destruct (Hp p (or_introl eq_refl)) as (Hne & Hs).
  destruct rest as [|q rest']; [exact Hs|].
  change (py_join sep (p :: q :: rest'))
    with (p ++ sep ++ py_join sep (q :: rest')).
  assert (Hrest : forall x, In x (q :: rest') -> x <> "" /\ stripped x)
    by (intros x Hin; apply Hp; now right).
  specialize (IH Hrest).
  apply stripped_iff in Hs. apply stripped_iff in IH.
  apply stripped_iff. split.
  - apply starts_clean_app; tauto.
  - rewrite <- append_assoc. apply rstrip_app; [|tauto].
    apply py_join_nonempty; [discriminate|].
    intros x Hin. now apply Hrest.
Qed.

Lemma get_text_stripped (sep : string) (n : node) : stripped (get_text sep n).
Proof.
  unfold get_text. apply py_join_stripped.
  intros p Hin. apply filter_In in Hin. destruct Hin as (Hin & Ht).
  split; [now apply truthy_true_iff|].
  apply in_map_iff in Hin. destruct Hin as (x & <- & _).
  apply py_strip_stripped.
Qed.

Lemma safe_text_stripped (card : node) (s : selector) :
  stripped (safe_text card s).
Proof.
  unfold safe_text. destruct (select_one s card); [|reflexivity].
  apply get_text_stripped.
Qed.

Lemma first_text_stripped (card : node) (sels : list selector) :
  stripped (first_text card sels).
Proof.
  induction sels as [|s rest IH]; [reflexivity|].
  destruct rest as [|s' rest']; [apply safe_text_stripped|].
  change (first_text card (s :: s' :: rest'))
    with (py_or (safe_text card s) (first_text card (s' :: rest'))).
  unfold py_or. destruct (truthy (safe_text card s)); [|exact IH].
  apply safe_text_stripped.
Qed.



(** ** The driver: what is returned, what is fetched, when it sleeps *)

Section ScrapeInvariant.

Context {Q : Quoting}.
Variables World Raised : Type.
Variable fetch_page : string -> World -> result Raised string * World.
Variable parse_listings : string -> list JobPosting.
Variable emit : Driver.log_record -> World -> World.
Variable sleep_delay : World -> World.
Variable max_jobs : Z.
Variable P : dict value -> Prop.
Hypothesis P_parsed :
  forall html job, In job (parse_listings html) -> P (to_dict job).

Lemma append_jobs_Forall (page_jobs : list JobPosting) :
  forall all_jobs,
    (forall job, In job page_jobs -> P (to_dict job)) ->
    Forall P all_jobs ->
    Forall P (Driver.append_jobs max_jobs page_jobs all_jobs).
Proof.
  induction page_jobs as [|job rest IH]; intros all_jobs Hpage Hall;
    [exact Hall|].
  cbn [Driver.append_jobs].
  assert (Hall' : Forall P (all_jobs ++ [to_dict job])%list).
  { apply Forall_app. split; [exact Hall|].
    constructor; [apply Hpage; now left|constructor]. }
  destruct (Driver.len _ >=? max_jobs)%Z; [exact Hall'|].
  apply IH; [|exact Hall'].
  intros j Hin. apply Hpage. now right.
Qed.

Lemma scrape_loop_Forall fuel :
  forall search_url start all_jobs w jobs w',
    Forall P all_jobs ->
    Driver.scrape_loop World Raised fetch_page parse_listings emit sleep_delay
                       max_jobs fuel search_url start all_jobs w
    = Some (Ok jobs, w') ->
    Forall P jobs.
Proof.
  induction fuel as [|fuel IH]; intros search_url start all_jobs w jobs w' Hall;
    rewrite scrape_loop_eq;
    destruct (Driver.len all_jobs <? max_jobs)%Z;
    try discriminate; try (intros [= <- <-]; exact Hall).
  cbv zeta.
  destruct (fetch_page _ _) as [[html|e] w2]; [|discriminate].
  destruct (parse_listings html) as [|job rest] eqn:Hp.
  - intros [= <- <-]. exact Hall.
  - apply IH. apply append_jobs_Forall; [|exact Hall].
    intros j Hin. apply (P_parsed html). now rewrite Hp.
Qed.

End ScrapeInvariant.



Section RecorderFacts.

Context {Q : Quoting} {E : Type}.
Variable serve : string -> result E string.
Variable extract : string -> list JobPosting.
Variable search_url : string.
Variable max_jobs : Z.

Local Abbreviation loop :=
  (Driver.scrape_loop Recorder.world E (Recorder.fetch serve) extract
                      Recorder.quiet Recorder.sleep max_jobs).
Local Abbreviation url_at := (Recorder.url_at search_url).
Local Abbreviation page_at := (Recorder.page_at serve extract search_url).
Local Abbreviation productive i m :=
  (List.length (filter Recorder.nonempty (map page_at (seq i m)))).

Lemma page_at_ok (i : nat) (html : string) :
  serve (url_at i) = Ok html -> page_at i = map to_dict (extract html).
Proof.
  unfold Recorder.page_at. now intros ->.
Qed.

Lemma page_at_err (i : nat) (e : E) :
  serve (url_at i) = Err e -> page_at i = [].
Proof.
  unfold Recorder.page_at. now intros ->.
Qed.

(** The loop from page [i] on: the pages it fetches, the sleeps it adds and
    what it returns. *)
Lemma recorder_loop fuel :
  forall i all_jobs w r w',
    loop fuel search_url (25 * Z.of_nat i) all_jobs w = Some (r, w') ->
    exists m,
      Recorder.fetched w' = (Recorder.fetched w ++ map url_at (seq i m))%list
      /\ Recorder.sleeps w' = (Recorder.sleeps w + productive i m)%nat
      /\ match r with
         | Ok jobs =>
             jobs = (all_jobs
                       ++ firstn (Z.to_nat (max_jobs - Driver.len all_jobs))
                                 (List.concat (map page_at (seq i m))))%list
             /\ forall j, (i <= j < i + m)%nat ->
                          exists html, serve (url_at j) = Ok html
         | Err e => exists m0, m = S m0 /\ serve (url_at (i + m0)) = Err e
         end.
Proof.
  induction fuel as [|fuel IH]; intros i all_jobs w r w';
    rewrite scrape_loop_eq;
    destruct (Z.ltb_spec (Driver.len all_jobs) max_jobs) as [Hlt|Hge];
    try discriminate.
  - intros [= <- <-]. exists 0%nat. cbn [seq map filter List.length List.concat].
    rewrite app_nil_r, firstn_nil, app_nil_r, Nat.add_0_r.
    repeat split. intros j Hj. lia.
  - cbv zeta. unfold Recorder.fetch at 1, Recorder.quiet at 1.
    fold (url_at i).
    destruct (serve (url_at i)) as [html|e] eqn:Hs.
    + destruct (extract html) as [|job rest] eqn:Hp.
      * intros [= <- <-]. exists 1%nat.
        unfold Recorder.quiet.
        cbn [seq map filter List.concat Recorder.fetched Recorder.sleeps].
        rewrite (page_at_ok _ _ Hs), Hp.
        cbn [map Recorder.nonempty filter List.length app].
        rewrite firstn_nil, app_nil_r, Nat.add_0_r.
        repeat split. intros j Hj. assert (j = i) by lia. subst. now exists html.
      * replace (25 * Z.of_nat i + Driver.page_size_guess)%Z
          with (25 * Z.of_nat (S i))%Z by (unfold Driver.page_size_guess; lia).
        intros Hrun. apply IH in Hrun. destruct Hrun as (m & Hf & Hsl & Hr).
        exists (S m).
        unfold Recorder.quiet in Hf, Hsl.
        cbn [Recorder.sleep Recorder.fetched Recorder.sleeps] in Hf, Hsl.
        assert (Hpage : page_at i = map to_dict (job :: rest))
          by (now rewrite (page_at_ok _ _ Hs), Hp).
        split; [|split].
        -- rewrite Hf, <- app_assoc. reflexivity.
        -- rewrite Hsl. cbn [seq map filter]. rewrite Hpage.
           cbn [map Recorder.nonempty List.length]. lia.
        -- destruct r as [jobs|e].
           ++ destruct Hr as (Hjobs & Hserved). split.
              ** rewrite Hjobs.
                 rewrite (append_jobs_firstn _ _ _ Hlt).
                 cbn [seq map List.concat]. rewrite Hpage.
                 rewrite firstn_app, <- app_assoc. do 2 f_equal.
                 unfold Driver.len. rewrite length_app, length_firstn.
                 cbn [map List.length]. f_equal. lia.
              ** intros j Hj. destruct (Nat.eq_dec j i) as [->|Hne];
                   [now exists html|].
                 apply Hserved. lia.
           ++ destruct Hr as (m0 & -> & Hfail).
              exists (S m0). split; [reflexivity|].
              now rewrite Nat.add_succ_r.
    + intros [= <- <-]. exists 1%nat.
      cbn [seq map filter List.concat Recorder.fetched Recorder.sleeps].
      rewrite (page_at_err _ _ Hs).
      cbn [Recorder.nonempty filter List.length]. rewrite Nat.add_0_r.
      repeat split. exists 0%nat. now rewrite Nat.add_0_r.
  - intros [= <- <-]. exists 0%nat. cbn [seq map filter List.length List.concat].
    rewrite app_nil_r, firstn_nil, app_nil_r, Nat.add_0_r.
    repeat split. intros j Hj. lia.
Qed.

(** X5.  The pages are fetched at the offsets 0, 25, 50, ... in this
    order, each once, and the list returned is the concatenation of the
    records of the fetched pages, in order, cut after [max_jobs] records. *)
Theorem scrape_search_concatenates_pages
        (jobs : list (dict value)) (w' : Recorder.world) :
  Recorder.scrape_search serve extract max_jobs search_url
  = Some (Ok jobs, w') ->
  exists k,
    Recorder.fetched w' = map url_at (seq 0 k)
    /\ jobs = firstn (Z.to_nat max_jobs) (List.concat (map page_at (seq 0 k)))
    /\ forall j, (j < k)%nat -> exists html, serve (url_at j) = Ok html.
Proof.
  unfold Recorder.scrape_search, Driver.scrape_search. intros Hrun.
  apply (recorder_loop _ 0%nat) in Hrun.
  destruct Hrun as (k & Hf & _ & Hjobs & Hserved).
  exists k. split; [exact Hf|]. split.
  - rewrite Hjobs. cbn [app]. change (Driver.len []) with 0%Z.
    now rewrite Z.sub_0_r.
  - intros j Hj. apply Hserved. lia.
Qed.


(** X7.  The driver sleeps once after every fetched page that holds a
    record, the page that fills the cap included, and neither after an
    empty page nor after a failed fetch. *)
Theorem scrape_search_sleeps_after_productive_pages
        (r : result E (list (dict value))) (w' : Recorder.world) :
  Recorder.scrape_search serve extract max_jobs search_url = Some (r, w') ->
  Recorder.sleeps w'
  = Recorder.productive_pages serve extract search_url
                              (List.length (Recorder.fetched w')).
Proof.
  unfold Recorder.scrape_search, Driver.scrape_search. intros Hrun.
  apply (recorder_loop _ 0%nat) in Hrun.
  destruct Hrun as (m & Hf & Hsl & _).
  cbn [Recorder.start_world Recorder.fetched Recorder.sleeps app] in Hf, Hsl.
  rewrite Hf, length_map, length_seq, Hsl. reflexivity.
Qed.

End RecorderFacts.

Lemma scrape_search_concatenates_pages_witness :
  exists k,
    [ "https://x.test/search?keywords=dev&start=0";
      "https://x.test/search?keywords=dev&start=25" ]
    = map (@Recorder.url_at ByteQuoting StubSamples.search_url) (seq 0 k)
    /\ map to_dict (map StubSamples.numbered_job (seq 0 3))
       = firstn (Z.to_nat 10)
                (List.concat (map (@Recorder.page_at
                                ByteQuoting nat RecorderSamples.serve_two_pages
                                StubSamples.three_then_none
                                StubSamples.search_url) (seq 0 k)))
    /\ forall j, (j < k)%nat ->
                 exists html,
                   RecorderSamples.serve_two_pages
                     (@Recorder.url_at ByteQuoting StubSamples.search_url j)
                   = Ok html.
Proof.
  apply (@scrape_search_concatenates_pages
           ByteQuoting nat RecorderSamples.serve_two_pages
           StubSamples.three_then_none StubSamples.search_url 10
           (map to_dict (map StubSamples.numbered_job (seq 0 3)))
           (Recorder.mkWorld
              [ "https://x.test/search?keywords=dev&start=0";
                "https://x.test/search?keywords=dev&start=25" ] 1)).
  reflexivity.
Defined.


(** With a cap of 2 the first page fills the cap: one fetch, one sleep. *)
Lemma scrape_search_sleeps_after_productive_pages_witness :
  RecorderSamples.scrape RecorderSamples.serve_two_pages 2
  = Some (Ok (map to_dict (map StubSamples.numbered_job (seq 0 2))),
          Recorder.mkWorld ["https://x.test/search?keywords=dev&start=0"] 1)
  /\ 1%nat
     = @Recorder.productive_pages
         ByteQuoting nat RecorderSamples.serve_two_pages
         StubSamples.three_then_none StubSamples.search_url 1.
Proof.
  split; [reflexivity|].
  apply (@scrape_search_sleeps_after_productive_pages
           ByteQuoting nat RecorderSamples.serve_two_pages
           StubSamples.three_then_none StubSamples.search_url 2
           (Ok (map to_dict (map StubSamples.numbered_job (seq 0 2))))
           (Recorder.mkWorld ["https://x.test/search?keywords=dev&start=0"] 1)).
  reflexivity.
Defined.

(** ** The fetcher: attempts, requests, sleeps and warnings *)

Section ScriptFacts.

Variables E Response : Type.
Variable proxy_at : nat -> result E (option string).
Variable response_at : nat -> result E Response.
Variable raise_for_status : Response -> option E.
Variable resp_text : Response -> string.
Variable max_retries : Z.
Variable request_timeout : Z.
Variable url : string.

Local Abbreviation get_proxy := (Script.get_proxy E proxy_at).
Local Abbreviation session_get := (Script.session_get E Response response_at).
Local Abbreviation emit := (Script.emit E).
Local Abbreviation attempt_once :=
  (Fetcher.attempt_once Script.world E Response unit (Some get_proxy)
                        max_retries request_timeout session_get
                        raise_for_status resp_text emit).
Local Abbreviation fetch_loop :=
  (Fetcher.fetch_loop Script.world E Response unit (Some get_proxy)
                      max_retries request_timeout session_get
                      raise_for_status resp_text emit Script.sleep).
Local Abbreviation outcome_at :=
  (Script.outcome_at E Response proxy_at response_at raise_for_status resp_text).
Local Abbreviation request_at := (Script.request_at E proxy_at url).
Local Abbreviation number i := (Z.of_nat i + 1)%Z.

Lemma script_attempt_once (k : Z) (w : Script.world) :
  attempt_once url None k w
  = (outcome_at (Script.started w),
     Script.mkWorld (S (Script.started w))
                    (Script.requests w ++ request_at (Script.started w))%list
                    (Script.sleeps w) (Script.warnings w)).
Proof.
  unfold Fetcher.attempt_once, Script.get_proxy, Script.outcome_at,
    Script.request_at.
  destruct (proxy_at (Script.started w)) as [proxy|e].
  - unfold Script.session_get, Script.emit.
    cbn [Script.started Script.requests Script.sleeps Script.warnings pred].
    destruct (response_at (Script.started w)) as [resp|e]; [|reflexivity].
    destruct (raise_for_status resp); reflexivity.
  - cbn [Script.started Script.requests Script.sleeps Script.warnings].
    now rewrite app_nil_r.
Qed.

Lemma script_fetch_loop (n : nat) :
  forall k last w r w',
    fetch_loop url None n k last w = (r, w') ->
    k = number (Script.started w) ->
    exists m,
      (m <= n)%nat
      /\ Script.started w' = (Script.started w + m)%nat
      /\ Script.requests w'
         = (Script.requests w
              ++ flat_map request_at (seq (Script.started w) m))%list
      /\ match r with
         | Ok text =>
             (1 <= m)%nat
             /\ Script.sleeps w' = (Script.sleeps w + (m - 1))%nat
             /\ Script.warnings w'
                = (Script.warnings w
                     ++ map (fun i => number i) (seq (Script.started w) (m - 1)))%list
             /\ outcome_at (Script.started w + (m - 1)) = Ok text
         | Err _ =>
             m = n
             /\ Script.sleeps w' = (Script.sleeps w + n)%nat
             /\ Script.warnings w'
                = (Script.warnings w
                     ++ map (fun i => number i) (seq (Script.started w) n))%list
         end.
Proof.
  induction n as [|n IH]; intros k last w r w' Hrun Hk.
  - cbn [Fetcher.fetch_loop] in Hrun. exists 0%nat.
    assert (Hw : w' = w /\ exists x, r = Err x)
      by (destruct last; injection Hrun as <- <-; split; eauto).
    destruct Hw as (-> & x & ->).
    cbn [seq flat_map map]. rewrite !app_nil_r, !Nat.add_0_r.
    repeat split; reflexivity.
  - rewrite fetch_loop_S, script_attempt_once in Hrun.
    destruct (outcome_at (Script.started w)) as [text|e] eqn:Ho.
    + injection Hrun as <- <-. exists 1%nat.
      cbn [Script.started Script.requests Script.sleeps Script.warnings
           seq flat_map map Nat.sub].
      rewrite !app_nil_r, !Nat.add_0_r.
      repeat split; try lia. exact Ho.
    + apply IH in Hrun.
      2:{ unfold Fetcher.after_failure, Script.sleep, Script.emit.
          cbn [Script.started]. lia. }
      unfold Fetcher.after_failure, Script.sleep, Script.emit in Hrun.
      cbn [Script.started Script.requests Script.sleeps Script.warnings] in Hrun.
      destruct Hrun as (m & Hm & Hst & Hreq & Hr).
      exists (S m). split; [lia|]. split; [lia|]. split.
      * rewrite Hreq, <- app_assoc. reflexivity.
      * destruct r as [text|x].
        -- destruct Hr as (H1 & Hsl & Hwarn & Hout).
           destruct m as [|m]; [lia|].
           cbn [Nat.sub] in *. rewrite Nat.sub_0_r in *.
           split; [lia|]. split; [lia|]. split.
           ++ rewrite Hwarn, <- app_assoc. cbn [seq map app].
              now rewrite Hk.
           ++ rewrite <- Hout. f_equal. lia.
        -- destruct Hr as (-> & Hsl & Hwarn).
           split; [reflexivity|]. split; [lia|].
           rewrite Hwarn, <- app_assoc. cbn [seq map app]. now rewrite Hk.
Qed.

Lemma numbers_from_one (n : nat) :
  map (fun i => number i) (seq 0 n) = map Z.of_nat (seq 1 n).
Proof.
  rewrite <- seq_shift, map_map. apply map_ext. intros i. lia.
Qed.

(** X8.  [_fetch_page] logs one warning and sleeps once for every failed
    attempt, the last one included, and does neither after the attempt that
    succeeds; the warnings carry the attempt numbers 1, 2, ... in order.
    A call that fails has made [max_retries] attempts (none when
    [max_retries] is not positive); a call that returns has made one
    attempt more than it slept. *)
Theorem fetch_page_sleeps_after_failures
        (r : result (Fetcher.raised E) string) (w' : Script.world) :
  Script.fetch_page E Response proxy_at response_at raise_for_status resp_text
                    max_retries request_timeout url = (r, w') ->
  Script.warnings w' = map Z.of_nat (seq 1 (Script.sleeps w'))
  /\ match r with
     | Ok _ => Script.started w' = S (Script.sleeps w')
               /\ (Z.of_nat (Script.started w') <= max_retries)%Z
     | Err _ => Script.started w' = Script.sleeps w'
                /\ Script.sleeps w' = Z.to_nat max_retries
     end.
Proof.
  unfold Script.fetch_page, Fetcher._fetch_page. intros Hrun.
  apply script_fetch_loop in Hrun; [|reflexivity].
  cbn [Script.start_world Script.started Script.requests Script.sleeps
       Script.warnings app Nat.add] in Hrun.
  destruct Hrun as (m & Hm & Hst & _ & Hr).
  destruct r as [text|x].
  - destruct Hr as (H1 & Hsl & Hwarn & _).
    rewrite Hwarn, Hsl, numbers_from_one. split; [reflexivity|]. lia.
  - destruct Hr as (-> & Hsl & Hwarn).
    rewrite Hwarn, Hsl, numbers_from_one. auto.
Qed.

(** X9.  Every attempt asks the proxy manager anew; the request of an
    attempt goes to the URL of the call with the proxy of that attempt for
    both [http] and [https] (no proxies when the manager gives none or an
    empty string), and an attempt whose proxy lookup raises sends no
    request. *)
Theorem fetch_page_requests
        (r : result (Fetcher.raised E) string) (w' : Script.world) :
  Script.fetch_page E Response proxy_at response_at raise_for_status resp_text
                    max_retries request_timeout url = (r, w') ->
  Script.requests w' = flat_map request_at (seq 0 (Script.started w'))
  /\ forall req, In req (Script.requests w') ->
                 fst req = url
                 /\ (snd req = None
                     \/ exists p, p <> "" /\ snd req = Some (p, p)).
Proof.
  unfold Script.fetch_page, Fetcher._fetch_page. intros Hrun.
  apply script_fetch_loop in Hrun; [|reflexivity].
  cbn [Script.start_world Script.started Script.requests app Nat.add] in Hrun.
  destruct Hrun as (m & _ & Hst & Hreq & _).
  rewrite Hreq, Hst. split; [reflexivity|].
  intros req Hin. apply in_flat_map in Hin. destruct Hin as (i & _ & Hin).
  unfold Script.request_at in Hin.
  destruct (proxy_at i) as [proxy|e]; [|contradiction].
  destruct Hin as [<-|[]]. split; [reflexivity|].
  unfold Fetcher.proxies_of. destruct proxy as [p|]; [|now left].
  destruct (truthy p) eqn:Hp; [|now left].
  right. exists p. split; [now apply truthy_true_iff|reflexivity].
Qed.

End ScriptFacts.

(** Three attempts: a timeout, a failed proxy lookup, a response. *)
Lemma fetch_page_sleeps_after_failures_witness :
  ScriptSamples.fetch_page 3 "https://x.test/search?start=0"
  = (Ok "<html>jobs</html>",
     Script.mkWorld 3
       [ ("https://x.test/search?start=0",
          Some ("http://proxy-a:8080", "http://proxy-a:8080"));
         ("https://x.test/search?start=0",
          Some ("http://proxy-a:8080", "http://proxy-a:8080")) ]
       2 [1%Z; 2%Z])
  /\ [1%Z; 2%Z] = map Z.of_nat (seq 1 2)
  /\ 3%nat = 3%nat /\ (Z.of_nat 3 <= 3)%Z.
Proof.
  split; [reflexivity|].
  apply (fetch_page_sleeps_after_failures
           string (Z * string) ScriptSamples.proxy_at ScriptSamples.response_at
           ScriptSamples.raise_for_status snd 3 20
           "https://x.test/search?start=0"
           (Ok "<html>jobs</html>")
           (Script.mkWorld 3
              [ ("https://x.test/search?start=0",
                 Some ("http://proxy-a:8080", "http://proxy-a:8080"));
                ("https://x.test/search?start=0",
                 Some ("http://proxy-a:8080", "http://proxy-a:8080")) ]
              2 [1%Z; 2%Z])).
  reflexivity.
Defined.

Lemma fetch_page_requests_witness :
  [ ("https://x.test/search?start=0",
     Some ("http://proxy-a:8080", "http://proxy-a:8080"));
    ("https://x.test/search?start=0",
     Some ("http://proxy-a:8080", "http://proxy-a:8080")) ]
  = flat_map (Script.request_at string ScriptSamples.proxy_at
                                "https://x.test/search?start=0") (seq 0 3).
Proof.
  apply (fetch_page_requests
           string (Z * string) ScriptSamples.proxy_at ScriptSamples.response_at
           ScriptSamples.raise_for_status snd 3 20
           "https://x.test/search?start=0"
           (Ok "<html>jobs</html>")
           (Script.mkWorld 3
              [ ("https://x.test/search?start=0",
                 Some ("http://proxy-a:8080", "http://proxy-a:8080"));
                ("https://x.test/search?start=0",
                 Some ("http://proxy-a:8080", "http://proxy-a:8080")) ]
              2 [1%Z; 2%Z])).
  reflexivity.
Defined.

(** ** The exporter: what a successful export leaves behind *)

Lemma has_slash_split (s : string) :
  has_char "/" s = true -> exists h t, split_last_slash s = Some (h, t).
Proof.
  induction s as [|c s IH]; cbn [has_char split_last_slash]; [discriminate|].
  intros H. destruct (split_last_slash s) as [[h t]|] eqn:E; [eauto|].
  destruct (Ascii.eqb c "/") eqn:Ec; [eauto|].
  cbn [orb] in H. destruct (IH H) as (h & t & Hs). discriminate.
Qed.

Lemma dirname_nonempty (s : string) : has_char "/" s = true -> dirname s <> "".
Proof.
  intros H. unfold dirname.
  destruct (has_slash_split _ H) as (h & t & ->).
  destruct (rstrip_slash (h ++ "/")) eqn:E; [|discriminate].
  apply append_nonempty. discriminate.
Qed.

Lemma abspath_has_slash (fs : FS) (p : string) :
  has_char "/" (abspath fs p) = true.
Proof.
  unfold abspath. destruct (is_absolute p) eqn:E.
  - destruct p as [|c p]; [discriminate|]. cbn [is_absolute] in E.
    cbn [has_char]. now rewrite E.
  - rewrite has_char_app. cbn [append has_char].
    rewrite Ascii.eqb_refl. cbn [orb]. apply orb_true_r.
Qed.

Lemma parent_nonempty (fs : FS) (p : string) :
  truthy (dirname (abspath fs p)) = true.
Proof.
  apply truthy_true_iff, dirname_nonempty, abspath_has_slash.
Qed.

Lemma dir_prefixes_whole (rest : string) :
  forall seen, seen ++ rest <> "" -> In (seen ++ rest) (dir_prefixes seen rest).
Proof.
  induction rest as [|c rest IH]; intros seen Hne; cbn [dir_prefixes].
  - rewrite append_empty_r in *. apply truthy_true_iff in Hne.
    rewrite Hne. now left.
  - assert (Hstep : forall x, (seen ++ String x "") ++ rest = seen ++ String x rest)
      by (intros x; now rewrite append_assoc).
    destruct (Ascii.eqb c "/") eqn:Ec.
    + apply Ascii.eqb_eq in Ec. subst c. apply in_or_app. right.
      rewrite <- (Hstep "/"%char). apply IH. rewrite Hstep. exact Hne.
    + rewrite <- (Hstep c). apply IH. rewrite Hstep. exact Hne.
Qed.

Lemma add_missing_keeps (ps : list string) :
  forall ds d, In d ds -> In d (add_missing ps ds).
Proof.
  induction ps as [|p ps IH]; intros ds d Hd; [exact Hd|].
  cbn [add_missing]. apply IH.
  destruct (mem p ds); [exact Hd|]. apply in_or_app. now left.
Qed.

Lemma add_missing_adds (ps : list string) :
  forall ds p, In p ps -> In p (add_missing ps ds).
Proof.
  induction ps as [|q ps IH]; intros ds p Hp; [contradiction|].
  cbn [add_missing]. destruct Hp as [->|Hp]; [|now apply IH].
  apply add_missing_keeps.
  destruct (mem p ds) eqn:E; [now apply mem_spec|].
  apply in_or_app. right. now left.
Qed.

Lemma makedirs_exists (p : string) (fs : FS) :
  p <> "" -> path_exists p (makedirs p fs) = true.
Proof.
  intros Hp. unfold path_exists, makedirs. cbn [dirs].
  apply orb_true_iff. left. apply mem_spec, add_missing_adds.
  apply (dir_prefixes_whole p ""). exact Hp.
Qed.

Lemma ensure_parent_dir_exists (path : string) (fs : FS) :
  path_exists (dirname (abspath fs path))
              (DataExporter._ensure_parent_dir path fs) = true.
Proof.
  unfold DataExporter._ensure_parent_dir.
  rewrite parent_nonempty. cbn [andb].
  destruct (path_exists (dirname (abspath fs path)) fs) eqn:E; cbn [negb].
  - exact E.
  - apply makedirs_exists. apply truthy_true_iff, parent_nonempty.
Qed.

Lemma ensure_parent_dir_cwd (path : string) (fs : FS) :
  cwd (DataExporter._ensure_parent_dir path fs) = cwd fs.
Proof.
  unfold DataExporter._ensure_parent_dir.
  destruct (truthy _ && negb _); reflexivity.
Qed.

Lemma ensure_parent_dir_dirs (path : string) (fs : FS) (d : string) :
  In d (dirs fs) -> In d (dirs (DataExporter._ensure_parent_dir path fs)).
Proof.
  unfold DataExporter._ensure_parent_dir.
  destruct (truthy _ && negb _); [|auto].
  intros Hd. cbn [makedirs dirs]. now apply add_missing_keeps.
Qed.

Lemma abspath_cwd (fs fs' : FS) (p : string) :
  cwd fs' = cwd fs -> abspath fs' p = abspath fs p.
Proof.
  unfold abspath. now intros ->.
Qed.

(** A parent directory that exists is left alone. *)
Lemma ensure_parent_dir_present (path : string) (fs : FS) :
  path_exists (dirname (abspath fs path)) fs = true ->
  DataExporter._ensure_parent_dir path fs = fs.
Proof.
  unfold DataExporter._ensure_parent_dir. intros ->.
  now rewrite andb_false_r.
Qed.

Lemma write_file_exists (p content q : string) (fs : FS) :
  path_exists q fs = true -> path_exists q (write_file p content fs) = true.
Proof.
  unfold path_exists, write_file. cbn [dirs files].
  intros H. apply orb_true_iff in H. apply orb_true_iff.
  destruct H as [H|H]; [now left|right].
  rewrite keys_dict_set. destruct (mem (abspath fs p) (keys (files fs))); [exact H|].
  apply mem_spec. apply mem_spec in H. apply in_or_app. now left.
Qed.

Lemma dict_set_twice {V} (k : string) (v1 v2 : V) (d : dict V) :
  dict_set k v2 (dict_set k v1 d) = dict_set k v2 d.
Proof.
  induction d as [|[k' v'] rest IH]; cbn [dict_set].
  - now rewrite String.eqb_refl.
  - destruct (String.eqb k k') eqn:E; cbn [dict_set].
    + now rewrite String.eqb_refl.
    + now rewrite E, IH.
Qed.

Lemma write_file_twice (p content : string) (fs : FS) :
  write_file p content (write_file p content fs) = write_file p content fs.
Proof.
  unfold write_file, abspath. cbn [cwd dirs files].
  now rewrite dict_set_twice.
Qed.

Section ExportResults.

Variable json_dump : list (dict value) -> string.
Variable to_csv : list (dict value) -> string.
Variable to_excel : list (dict value) -> string.
Variable to_html : list (dict value) -> string.
Variable xml_write : DataExporter.xml -> string.

Local Abbreviation export :=
  (DataExporter.export json_dump to_csv to_excel to_html xml_write).
Local Abbreviation text_of :=
  (rendered json_dump to_csv to_excel to_html xml_write).

(** A successful export: the parent directory is ensured, then the file is
    written. *)
Lemma export_ok (data : list (dict value)) (fmt path : string) (fs : FS) :
  data <> [] -> In (lower fmt) DataExporter.formats ->
  export data fmt path fs
  = (Ok tt, write_file path (text_of (lower fmt) data)
                       (DataExporter._ensure_parent_dir path fs)).
Proof.
  intros Hne Hfmt. destruct data as [|rec rest]; [congruence|].
  unfold DataExporter.export, rendered.
  unfold DataExporter.formats in Hfmt. simpl in Hfmt.
  destruct Hfmt as [<-|[<-|[<-|[<-|[<-|[]]]]]]; reflexivity.
Qed.




End ExportResults.



(** ** Paging a URL that is paged already *)



(** ** The scraper with degenerate settings *)

(** X14.  With [max_jobs] not positive the scraper returns the empty list
    and does nothing: no log, no request, no sleep.  With [max_jobs]
    positive and [max_retries] not positive it fails on the assertion of
    [_fetch_page] at the first page, before any request. *)
Theorem scraper_degenerate_settings {Q : Quoting}
        (World Exn Response : Type)
        (proxy_manager : option (World -> result Exn (option string) * World))
        (max_retries request_timeout : Z)
        (session_get :
           string -> option unit -> option (string * string) -> Z ->
           World -> result Exn Response * World)
        (raise_for_status : Response -> option Exn)
        (resp_text : Response -> string)
        (emit_fetch : Fetcher.log_record Exn -> World -> World)
        (emit_scrape : Driver.log_record -> World -> World)
        (sleep_delay : World -> World)
        (BeautifulSoup : string -> node)
        (search_url : string) (max_jobs : Z) (w : World) :
  ((max_jobs <= 0)%Z ->
   LinkedInJobScraper.scrape_search
     World Exn Response proxy_manager max_retries request_timeout session_get
     raise_for_status resp_text emit_fetch emit_scrape sleep_delay BeautifulSoup
     search_url max_jobs w
   = Some (Ok [], w))
  /\ ((0 < max_jobs)%Z -> (max_retries <= 0)%Z ->
      LinkedInJobScraper.scrape_search
        World Exn Response proxy_manager max_retries request_timeout session_get
        raise_for_status resp_text emit_fetch emit_scrape sleep_delay
        BeautifulSoup search_url max_jobs w
      = Some (Err Fetcher.AssertionError,
              emit_scrape
                (Driver.LogScraping 0 (_append_start_param search_url 0)) w)).
Proof.
  unfold LinkedInJobScraper.scrape_search, Driver.scrape_search.
  split.
  - intros Hmax. rewrite scrape_loop_eq.
    replace (Driver.len [] <? max_jobs)%Z with false; [reflexivity|].
    symmetry. apply Z.ltb_ge. cbn. lia.
  - intros Hmax Hretries. rewrite scrape_loop_eq.
    replace (Driver.len [] <? max_jobs)%Z with true
      by (symmetry; apply Z.ltb_lt; cbn; lia).
    destruct (Z.to_nat max_jobs) as [|fuel] eqn:Hfuel; [lia|].
    cbv zeta.
    unfold LinkedInJobScraper._fetch_page, Fetcher._fetch_page.
    replace (Z.to_nat max_retries) with 0%nat by lia.
    reflexivity.
Qed.

Lemma scraper_degenerate_settings_witness :
  LinkedInJobScraper.scrape_search
    (Q := ByteQuoting)
    FetchSamples.world nat FetchSamples.response None 0 20
    (FetchSamples.session_get 0) FetchSamples.raise_for_status
    FetchSamples.body (fun _ w => w) (fun _ w => w) (fun w => w)
    (fun _ => Samples.sample_soup) StubSamples.search_url 10 0%nat
  = Some (Err Fetcher.AssertionError, 0%nat)
  /\ LinkedInJobScraper.scrape_search
       (Q := ByteQuoting)
       FetchSamples.world nat FetchSamples.response None 3 20
       (FetchSamples.session_get 0) FetchSamples.raise_for_status
       FetchSamples.body (fun _ w => w) (fun _ w => w) (fun w => w)
       (fun _ => Samples.sample_soup) StubSamples.search_url 0 0%nat
     = Some (Ok [], 0%nat).
Proof.
  split.
  - apply (@scraper_degenerate_settings
             ByteQuoting FetchSamples.world nat FetchSamples.response None 0 20
             (FetchSamples.session_get 0) FetchSamples.raise_for_status
             FetchSamples.body (fun _ w => w) (fun _ w => w) (fun w => w)
             (fun _ => Samples.sample_soup) StubSamples.search_url 10 0%nat);
      lia.
  - apply (@scraper_degenerate_settings
             ByteQuoting FetchSamples.world nat FetchSamples.response None 3 20
             (FetchSamples.session_get 0) FetchSamples.raise_for_status
             FetchSamples.body (fun _ w => w) (fun _ w => w) (fun w => w)
             (fun _ => Samples.sample_soup) StubSamples.search_url 0 0%nat);
      lia.
Defined.
